(** * ScrollyTeller: a shallow embedding of the scroll narrative orchestrator

    The development follows [src/ScrollyTeller/ScrollyTeller.js] (the
    orchestrator class) and the demo section configuration
    (wealth and health of nations).  JavaScript objects that are mutated in
    place are kept in an explicit world; exceptions are completions; calls
    that leave the orchestrator (scrollama, user callbacks, the utilities)
    are recorded in a trace. *)

From Stdlib Require Import Floats.PrimFloat Strings.Ascii Strings.String.
From stdpp Require Import gmap strings list sorting.

Local Open Scope string_scope.
Local Set Warnings "-inexact-float".

(** ** JavaScript completions *)

Inductive JSError :=
  | TypeError
  | ConfigValidationError
  | Rejection (reason : string).

Inductive Completion (A : Type) :=
  | Normal (a : A)
  | Throw (e : JSError).
Arguments Normal {A} a.
Arguments Throw {A} e.

(** ** Data model *)

(** DOM nodes, graph handles and user-supplied function objects are known to
    the orchestrator by identity only. *)
Definition Element := nat.
Definition GraphHandle := nat.
Definition UserFn := nat.

(** A section configuration is addressed through its position in the shared
    [sectionList] array: every callback receives the object itself, not a
    copy. *)
Definition SectionRef := nat.

Inductive Direction := up | down.

(** A narration row is an object read from a delimited file: column name to
    text. *)
Abbreviation NarrationEntry := (gmap string string).

(** Narration and data sources: a file path, an array, or a promise. *)
Inductive Source (A : Type) :=
  | Path (p : string)
  | Rows (rows : list A)
  | Pending (promise : nat).
Arguments Path {A} p.
Arguments Rows {A} rows.
Arguments Pending {A} promise.

(** The CSS naming collaborator: the [css] table of class names and the two
    id builders the orchestrator calls. *)
Module CSSNames.
Record t := mk {
  css : option (gmap string string);
  sectionId : option string → string;
  graphId : option string → string;
}.
End CSSNames.

(** [onScrollFunction = noop] and [onActivateNarrationFunction = noop]:
    lodash's [noop] stands in for a callback the section does not define. *)
Inductive Callback :=
  | noop
  | UserCallback (f : UserFn).

(** The argument object both callbacks receive. *)
Record CallbackArgs := mkArgs {
  index : nat;
  progress : float;
  element : Element;
  trigger : string;
  direction : Direction;
  graphId : string;
  sectionConfig : SectionRef;
}.

(** What the three scrollama handlers of one section close over. *)
Record Closure := mkClosure {
  env_narration : option (Source NarrationEntry);
  env_graphId : string;
  env_onScrollFunction : Callback;
  env_onActivateNarrationFunction : Callback;
  env_sectionConfig : SectionRef;
}.

Record SetupOptions := mkSetup {
  step : string;
  container : string;
  graphic : string;
  offset : float;
  setup_progress : bool;
}.

(** A scrollama instance: fresh after [scrollama()], then configured by
    [setup] and given its handlers. *)
Record Scroller := mkScroller {
  options : option SetupOptions;
  handlers : option Closure;
}.

Record SectionConfig := mkSection {
  sectionIdentifier : option string;
  narration : option (Source NarrationEntry);
  data : option (Source (gmap string string));
  showSpacers : option bool;
  useDefaultGraphCSS : option bool;
  appContainerId : option string;
  cssNames : option CSSNames.t;
  buildGraphFunction : option UserFn;
  onScrollFunction : option UserFn;
  onActivateNarrationFunction : option UserFn;
  graph : option GraphHandle;
  scroller : option Scroller;
}.

(** The configuration object handed to the constructor.  Its [sectionList]
    property is the array held in the world (see [World]); [config_cssNames]
    carries the object together with its [constructor.name]. *)
Record Config := mkConfig {
  config_appContainerId : option string;
  config_cssNames : option (string * CSSNames.t);
}.

(** The instance built by the constructor; [this.sectionList] is the world's
    array. *)
Record ScrollyTeller := mkScrollyTeller {
  this_appContainerId : option string;
  this_cssNames : CSSNames.t;
}.

(** Calls that leave the orchestrator, in the order they are made. *)
Inductive Effect :=
  | FetchNarration
  | FetchDataAndProcessResults
  | BuildSectionWithNarration (section : SectionRef)
  | ScrollamaSetup (section : SectionRef) (opts : SetupOptions)
  | BuildGraph (f : UserFn) (graphId : string) (section : SectionRef)
  | Invoke (callback : Callback) (args : CallbackArgs).

(** The mutable state the orchestrator works on.  [sectionList] is the one
    array object that [config.sectionList] and [this.sectionList] both name
    ([None] when the property is undefined); [active] is the set of DOM
    elements carrying the class [active]. *)
Record World := mkWorld {
  sectionList : option (list SectionConfig);
  active : gset Element;
  trace : list Effect;
}.

(** ** The state and exception monad *)

Definition M (A : Type) : Type := World → Completion A * World.

Global Instance M_ret : MRet M := λ A a w, (Normal a, w).
Global Instance M_bind : MBind M := λ A B k m w,
  match m w with
  | (Normal a, w') => k a w'
  | (Throw e, w') => (Throw e, w')
  end.
Global Instance M_throw : MThrow JSError M := λ A e w, (Throw e, w).

Definition emit (e : Effect) : M unit := λ w,
  (Normal tt, mkWorld (sectionList w) (active w) (trace w ++ [e])%list).

Definition lift {A} (c : Completion A) : M A := λ w, (c, w).

(** [select(element).classed('active', flag)] *)
Definition classed_active (el : Element) (flag : bool) : M unit := λ w,
  (Normal tt,
   mkWorld (sectionList w)
           (if flag then active w ∪ {[el]} else active w ∖ {[el]})
           (trace w)).

(** Reading the section object at a position of [this.sectionList]; a
    property access on a missing object is a [TypeError]. *)
Definition getSection (i : SectionRef) : M SectionConfig := λ w,
  match sectionList w ≫= (.!! i) with
  | Some s => (Normal s, w)
  | None => (Throw TypeError, w)
  end.

(** In-place update of the section object at a position. *)
Definition modifySection (i : SectionRef) (f : SectionConfig → SectionConfig)
    : M unit := λ w,
  (Normal tt,
   mkWorld (alter f i <$> sectionList w) (active w) (trace w)).

(** Field assignments on a section object. *)
Definition set_showSpacers (v : option bool) (s : SectionConfig) :=
  mkSection (sectionIdentifier s) (narration s) (data s) v
    (useDefaultGraphCSS s) (appContainerId s) (cssNames s)
    (buildGraphFunction s) (onScrollFunction s)
    (onActivateNarrationFunction s) (graph s) (scroller s).
Definition set_useDefaultGraphCSS (v : option bool) (s : SectionConfig) :=
  mkSection (sectionIdentifier s) (narration s) (data s) (showSpacers s)
    v (appContainerId s) (cssNames s)
    (buildGraphFunction s) (onScrollFunction s)
    (onActivateNarrationFunction s) (graph s) (scroller s).
Definition set_appContainerId (v : option string) (s : SectionConfig) :=
  mkSection (sectionIdentifier s) (narration s) (data s) (showSpacers s)
    (useDefaultGraphCSS s) v (cssNames s)
    (buildGraphFunction s) (onScrollFunction s)
    (onActivateNarrationFunction s) (graph s) (scroller s).
Definition set_cssNames (v : option CSSNames.t) (s : SectionConfig) :=
  mkSection (sectionIdentifier s) (narration s) (data s) (showSpacers s)
    (useDefaultGraphCSS s) (appContainerId s) v
    (buildGraphFunction s) (onScrollFunction s)
    (onActivateNarrationFunction s) (graph s) (scroller s).
Definition set_graph (v : option GraphHandle) (s : SectionConfig) :=
  mkSection (sectionIdentifier s) (narration s) (data s) (showSpacers s)
    (useDefaultGraphCSS s) (appContainerId s) (cssNames s)
    (buildGraphFunction s) (onScrollFunction s)
    (onActivateNarrationFunction s) v (scroller s).
Definition set_scroller (v : option Scroller) (s : SectionConfig) :=
  mkSection (sectionIdentifier s) (narration s) (data s) (showSpacers s)
    (useDefaultGraphCSS s) (appContainerId s) (cssNames s)
    (buildGraphFunction s) (onScrollFunction s)
    (onActivateNarrationFunction s) (graph s) v.

(** lodash [forEach]: the length is read once, the iteratee runs on each
    position in order, and an iteratee that returns [false] ends the loop;
    an undefined collection is not iterated. *)
Inductive IterateeResult := Continue | ExitEarly.

Fixpoint forEach_from (body : SectionRef → M IterateeResult)
    (i : nat) (count : nat) : M unit :=
  match count with
  | 0 => mret tt
  | S count' =>
      r ← body i;
      match r with
      | Continue => forEach_from body (S i) count'
      | ExitEarly => mret tt
      end
  end.

Definition forEach (body : SectionRef → M IterateeResult) : M unit := λ w,
  match sectionList w with
  | None => (Normal tt, w)
  | Some l => forEach_from body 0 (length l) w
  end.

(** ** Narration lookup inside the handlers *)

(** The value of [narration[index]]. *)
Inductive Indexed :=
  | Undefined
  | Entry (e : NarrationEntry)
  | Character (c : Ascii.ascii).

Definition narration_index (src : option (Source NarrationEntry))
    (index : nat) : Completion Indexed :=
  match src with
  | None => Throw TypeError
  | Some (Rows rows) =>
      Normal (match rows !! index with
              | Some e => Entry e
              | None => Undefined
              end)
  | Some (Path p) =>
      Normal (match String.get index p with
              | Some c => Character c
              | None => Undefined
              end)
  | Some (Pending _) => Normal Undefined
  end.

(** [const { trigger = '' } = v]: destructuring [undefined] throws; a missing
    [trigger] property takes the default. *)
Definition destructure_trigger (v : Indexed) : Completion string :=
  match v with
  | Undefined => Throw TypeError
  | Entry e => Normal (default "" (e !! "trigger"))
  | Character _ => Normal ""
  end.

Definition trigger_at (src : option (Source NarrationEntry)) (index : nat)
    : M string :=
  v ← lift (narration_index src index);
  lift (destructure_trigger v).

(** Template literals print an undefined value as the text [undefined]. *)
Definition template (v : option string) : string := default "undefined" v.

(** ** The orchestrator *)

(** Collaborators that are not part of the orchestrator: the utilities it
    imports, the default [CSSNames] object, and the user's functions.  A
    user function is known by what it returns or throws; whatever else it
    does is its own business. *)
Class Collaborators := {
  defaultCSSNames : CSSNames.t;
  fetchNarration :
    option (list SectionConfig) →
    Completion unit * option (list SectionConfig);
  fetchDataAndProcessResults :
    option (list SectionConfig) →
    Completion unit * option (list SectionConfig);
  buildSectionWithNarration :
    SectionConfig → Completion IterateeResult * SectionConfig;
  callBuildGraph :
    UserFn → string → SectionConfig → Completion (option GraphHandle);
  callUser : UserFn → CallbackArgs → Completion unit;
}.

Section Orchestrator.
Context `{Collaborators}.

(** Running an imported utility on the whole array, or on one section
    object; what it writes stays written also when it throws. *)
Definition onSectionList
    (f : option (list SectionConfig) →
         Completion unit * option (list SectionConfig)) : M unit := λ w,
  let '(r, l') := f (sectionList w) in
  (r, mkWorld l' (active w) (trace w)).

Definition onSection {A} (i : SectionRef)
    (f : SectionConfig → Completion A * SectionConfig) : M A :=
  section ← getSection i;
  let '(r, section') := f section in
  modifySection i (λ _, section');;
  lift r.

(** Modelled from the spec: the required fields of one section, checked by
    [validateScrollyTellerConfig] (utilities, not part of the sources at
    hand).  Sections 3 and 4.1 of the specification name the identifier and
    the narration as mandatory. *)
Definition has_required_fields (s : SectionConfig) : bool :=
  bool_decide (is_Some (sectionIdentifier s))
  && bool_decide (is_Some (narration s)).

(** Modelled from the spec: the check [validateScrollyTellerConfig]
    (utilities, not part of the sources at hand) makes.  Following sections
    3 and 7 of the specification, a configuration passes when the container
    id and the section list are present, every section has its required
    fields, and no two sections share an identifier. *)
Definition config_passes (config : Config)
    (sections : option (list SectionConfig)) : bool :=
  match config_appContainerId config, sections with
  | Some _, Some l =>
      forallb has_required_fields l
      && bool_decide (NoDup (sectionIdentifier <$> l))
  | _, _ => false
  end.

(** Modelled from the spec: [validateScrollyTellerConfig] (utilities, not
    part of the sources at hand).  Following section 7 of the
    specification, it throws [ConfigValidationError] on a configuration
    that does not pass and does nothing otherwise. *)
Definition validateScrollyTellerConfig (config : Config) : M unit := λ w,
  if config_passes config (sectionList w)
  then (Normal tt, w)
  else (Throw ConfigValidationError, w).

(** *** Private methods *)

Definition _assignConfigVariablesToSectionConfigs (this : ScrollyTeller)
    : M unit :=
  forEach (λ i,
    _ ← getSection i;
    modifySection i (λ section,
      set_cssNames (Some (this_cssNames this))
        (set_appContainerId (this_appContainerId this)
          (set_useDefaultGraphCSS
             (Some (default true (useDefaultGraphCSS section)))
             (set_showSpacers
                (Some (default true (showSpacers section))) section))));;
    mret Continue).

Definition _graphIdForSection (config : SectionConfig) : Completion string :=
  match cssNames config with
  | Some names => Normal (CSSNames.graphId names (sectionIdentifier config))
  | None => Throw TypeError
  end.

Definition _buildGraphs : M unit :=
  forEach (λ i,
    config ← getSection i;
    gid ← lift (_graphIdForSection config);
    match buildGraphFunction config with
    | None => mthrow TypeError
    | Some f =>
        emit (BuildGraph f gid i);;
        g ← lift (callBuildGraph f gid config);
        modifySection i (set_graph g);;
        mret Continue
    end).

(** The variables the three handlers of a section capture: the destructured
    [narration], the computed [graphId], the two callbacks with their [noop]
    defaults, and the section object itself. *)
Definition section_handlers (i : SectionRef) (sectionConfig : SectionConfig)
    (names : CSSNames.t) : Closure :=
  mkClosure (narration sectionConfig)
    (CSSNames.graphId names (sectionIdentifier sectionConfig))
    (from_option UserCallback noop (onScrollFunction sectionConfig))
    (from_option UserCallback noop
       (onActivateNarrationFunction sectionConfig))
    i.

Definition _buildScrollamaContainers : M unit :=
  forEach (λ i,
    sectionConfig ← getSection i;
    let css := cssNames sectionConfig ≫= CSSNames.css in
    modifySection i (set_scroller (Some (mkScroller None None)));;
    names ← match cssNames sectionConfig with
            | Some names => mret names
            | None => mthrow TypeError
            end;
    let sectionId :=
      CSSNames.sectionId names (sectionIdentifier sectionConfig) in
    let gid := CSSNames.graphId names (sectionIdentifier sectionConfig) in
    narrationBlock ← match css with
                     | Some classes => mret (classes !! "narrationBlock")
                     | None => mthrow TypeError
                     end;
    let opts :=
      mkSetup ("#" +:+ sectionId +:+ " ." +:+ template narrationBlock)
              ("#" +:+ sectionId) ("#" +:+ gid) 0.5%float true in
    emit (ScrollamaSetup i opts);;
    modifySection i
      (set_scroller
         (Some (mkScroller (Some opts)
            (Some (section_handlers i sectionConfig names)))));;
    mret Continue).

Definition _buildSections : M unit :=
  forEach (λ i,
    emit (BuildSectionWithNarration i);;
    onSection i buildSectionWithNarration).

(** *** Public methods *)

Definition constructor (config : Config) : M ScrollyTeller :=
  validateScrollyTellerConfig config;;
  let names :=
    match config_cssNames config with
    | None => defaultCSSNames
    | Some (constructor_name, object) =>
        if decide (constructor_name ≠ "CSSNames")
        then defaultCSSNames else object
    end in
  let this := mkScrollyTeller (config_appContainerId config) names in
  _assignConfigVariablesToSectionConfigs this;;
  mret this.

Definition render : M unit :=
  emit FetchNarration;;
  onSectionList fetchNarration;;
  emit FetchDataAndProcessResults;;
  onSectionList fetchDataAndProcessResults;;
  _buildSections;;
  _buildScrollamaContainers;;
  _buildGraphs.

(** Calling a callback: the call is recorded, then the callee runs. *)
Definition outcome (cb : Callback) (args : CallbackArgs) : Completion unit :=
  match cb with
  | noop => Normal tt
  | UserCallback f => callUser f args
  end.

Definition call (cb : Callback) (args : CallbackArgs) : M unit :=
  emit (Invoke cb args);;
  lift (outcome cb args).

(** *** Scroll handlers (the three arrow functions registered in
    [_buildScrollamaContainers]) *)

Definition onStepEnter (env : Closure)
    (el : Element) (idx : nat) (dir : Direction) : M unit :=
  trig ← trigger_at (env_narration env) idx;
  let progress := 0%float in
  classed_active el true;;
  call (env_onActivateNarrationFunction env)
       (mkArgs idx progress el trig dir (env_graphId env)
               (env_sectionConfig env)).

Definition onStepExit (env : Closure) (el : Element) : M unit :=
  classed_active el false.

Definition onStepProgress (env : Closure)
    (el : Element) (idx : nat) (dir : Direction) (p : float) : M unit :=
  trig ← trigger_at (env_narration env) idx;
  call (env_onScrollFunction env)
       (mkArgs idx p el trig dir (env_graphId env) (env_sectionConfig env)).

(** The notifications scrollama delivers to a section's handlers. *)
Inductive ScrollEvent :=
  | StepEnter (el : Element) (idx : nat) (dir : Direction)
  | StepExit (el : Element) (idx : nat) (dir : Direction)
  | StepProgress (el : Element) (idx : nat) (dir : Direction) (p : float).

Definition dispatch (env : Closure) (ev : ScrollEvent) : M unit :=
  match ev with
  | StepEnter el idx dir => onStepEnter env el idx dir
  | StepExit el _ _ => onStepExit env el
  | StepProgress el idx dir p => onStepProgress env el idx dir p
  end.

(** Each notification is handled to completion before the next one; an
    exception leaves the handler and the page goes on. *)
Definition run_events (env : Closure) (evs : list ScrollEvent) (w : World)
    : World :=
  foldl (λ w ev, (dispatch env ev w).2) w evs.

End Orchestrator.

(** ** The demo section: wealth and health of nations *)

(** Values found in the [state] object of a callback argument. *)
Inductive Value :=
  | VUndefined
  | VString (s : string)
  | VNumber (x : float).

(** JavaScript truthiness, as used by [if (yearProgress)] and
    [snippet ? ... : ...]. *)
Definition truthy (v : Value) : bool :=
  match v with
  | VUndefined => false
  | VString s => negb (bool_decide (s = ""))
  | VNumber x => negb (PrimFloat.eqb x 0 || PrimFloat.is_nan x)
  end.

(** What the section keeps in [sectionConfig.data] after reshaping; the
    handlers below read only the scale. *)
Record DemoData := mkDemoData {
  yearProgressScale : Value → float;
}.

Record DemoSection := mkDemoSection {
  demo_graph : option GraphHandle;
  demo_data : option DemoData;
}.

Record GraphElement := mkGraphElement {
  offsetWidth : float;
  offsetHeight : float;
}.

(** The argument object as the demo callbacks destructure it.  Every
    property may be missing: the callbacks read [state] and [graphElement],
    which the caller has to supply. *)
Record DemoParams := mkDemoParams {
  params_graphId : option string;
  params_state : option (gmap string Value);
  params_sectionConfig : option DemoSection;
  params_graphElement : option GraphElement;
}.

Definition property (o : gmap string Value) (k : string) : Value :=
  default VUndefined (o !! k).

(** Calls the demo callbacks make on the page and on the graph handle. *)
Inductive DemoEffect :=
  | SelectHtml (selector : string) (html : string)
  | PrettyPrint
  | SelectAttrOpacity (selector : string) (opacity : float)
  | GraphRender (g : GraphHandle) (year : float) (duration : float)
  | GraphResize (g : GraphHandle) (width : float) (height : float).

(** Built-in functions and the imported snippet table. *)
Class Builtins := {
  Math_floor : float → float;
  Number : Value → float;
  snippets : Value → option string;
}.

Definition double_quote : string := String "034"%char "".

Section Demo.
Context `{Builtins}.

Definition onScroll (params : DemoParams)
    : list DemoEffect * Completion unit :=
  match params_state params, params_sectionConfig params with
  | Some state, Some section =>
      match demo_data section with
      | Some data =>
          let yearProgress := property state "yearProgress" in
          if truthy yearProgress then
            match demo_graph section with
            | Some g =>
                ([GraphRender g
                    (Math_floor (yearProgressScale data yearProgress))
                    100%float],
                 Normal tt)
            | None => ([], Throw TypeError)
            end
          else ([], Normal tt)
      | None => ([], Throw TypeError)
      end
  | _, _ => ([], Throw TypeError)
  end.

Definition onActivateNarration (params : DemoParams)
    : list DemoEffect * Completion unit :=
  match params_state params, params_sectionConfig params with
  | Some state, Some section =>
      let year := property state "year" in
      let snippet := property state "snippet" in
      let code :=
        if truthy snippet
        then "<pre class=" +:+ double_quote +:+ "prettyprint lang-js"
             +:+ double_quote +:+ ">" +:+ template (snippets snippet)
             +:+ "</pre>"
        else "" in
      let gid := template (params_graphId params) in
      let page :=
        [SelectHtml ("#" +:+ gid +:+ " #codeSnippet") code;
         PrettyPrint;
         SelectAttrOpacity ("#" +:+ gid +:+ " svg")
           (if truthy snippet then 0%float else 1%float)] in
      match demo_graph section with
      | Some g =>
          ((page ++ [GraphRender g (Number year) 1000%float])%list, Normal tt)
      | None => (page, Throw TypeError)
      end
  | _, _ => ([], Throw TypeError)
  end.

Definition onResize (params : DemoParams)
    : list DemoEffect * Completion unit :=
  match params_sectionConfig params with
  | Some section =>
      match demo_graph section, params_graphElement params with
      | Some g, Some graphElement =>
          ([GraphResize g (offsetWidth graphElement * 0.9)%float
                          (offsetHeight graphElement * 0.9)%float],
           Normal tt)
      | _, _ => ([], Throw TypeError)
      end
  | None => ([], Throw TypeError)
  end.

End Demo.

(** ** Trigger decomposition *)

(** The trigger parser belongs to the utilities, which are not part of the
    sources at hand; this section follows section 4.2 of the
    specification. *)

Definition is_space (c : Ascii.ascii) : bool :=
  bool_decide (c = " "%char) || bool_decide (c = "009"%char)
  || bool_decide (c = "010"%char) || bool_decide (c = "013"%char).

Fixpoint trim_left (s : string) : string :=
  match s with
  | String c s' => if is_space c then trim_left s' else s
  | EmptyString => EmptyString
  end.

Fixpoint trim_right (s : string) : string :=
  match s with
  | String c s' =>
      match trim_right s' with
      | EmptyString => if is_space c then EmptyString else String c EmptyString
      | rest => String c rest
      end
  | EmptyString => EmptyString
  end.

(** Modelled from the spec: the trimming applied to each pair; white space
    is removed at both ends. *)
Definition trim (s : string) : string := trim_right (trim_left s).

(** Modelled from the spec: the split of the trigger on the delimiter
    between pairs; the string is cut at every occurrence of the character. *)
Fixpoint split_on (d : Ascii.ascii) (s : string) : list string :=
  match s with
  | EmptyString => [EmptyString]
  | String c s' =>
      if bool_decide (c = d) then EmptyString :: split_on d s'
      else match split_on d s' with
           | tok :: toks => String c tok :: toks
           | [] => [String c EmptyString]
           end
  end.

(** Modelled from the spec: the cut of one pair into key and value, at the
    first occurrence of the delimiter; a pair without it has no cut. *)
Fixpoint split_first (d : Ascii.ascii) (tok : string)
    : option (string * string) :=
  match tok with
  | EmptyString => None
  | String c tok' =>
      if bool_decide (c = d) then Some (EmptyString, tok')
      else '(k, v) ← split_first d tok'; Some (String c k, v)
  end.

(** Modelled from the spec: one step of the assembly.  A pair is trimmed
    and assigned into the mapping, over any earlier value of its key; a
    malformed pair (no delimiter) is dropped. *)
Definition assign_pair (acc : gmap string string) (tok : string)
    : gmap string string :=
  match split_first ":"%char tok with
  | Some (k, v) => <[trim k := trim v]> acc
  | None => acc
  end.

(** Modelled from the spec: the decomposition of a trigger.  Pairs are
    separated by a blank and a key is separated from its value by a colon,
    as in the specification's example. *)
Definition decomposeTrigger (trig : string) : gmap string string :=
  foldl assign_pair ∅ (split_on " "%char trig).

(** Modelled from the spec: the [state] a narration row exposes, present
    when [convertTriggerToObject] is enabled for the section. *)
Definition narration_state (convertTriggerToObject : bool)
    (row : NarrationEntry) : option (gmap string string) :=
  if convertTriggerToObject
  then Some (decomposeTrigger (default "" (row !! "trigger")))
  else None.

(** The value a token assigns to a key, if it assigns one. *)
Definition value_for (key : string) (tok : string) : option string :=
  '(k, v) ← split_first ":"%char tok;
  if decide (trim k = key) then Some (trim v) else None.

(** ** Properties of scroll streams and traces *)

(** The step a stream has entered and not yet left. *)
Definition entered_after (cur : option Element) (ev : ScrollEvent)
    : option Element :=
  match ev with
  | StepEnter el _ _ => Some el
  | StepExit el _ _ => if decide (cur = Some el) then None else cur
  | StepProgress _ _ _ _ => cur
  end.

(** A stream is paired when a step is entered only while no other step is
    still entered: every enter comes after the exit of the step entered
    before it. *)
Fixpoint paired (cur : option Element) (evs : list ScrollEvent) : bool :=
  match evs with
  | [] => true
  | ev :: evs' =>
      match ev, cur with
      | StepEnter el _ _, Some c => bool_decide (c = el)
      | _, _ => true
      end
      && paired (entered_after cur ev) evs'
  end.

(** At most one of the section's narration elements carries the flag. *)
Definition exclusive (steps : gset Element) (w : World) : Prop :=
  (size (active w ∩ steps) ≤ 1)%nat.

(** The phase of [render] a call belongs to, in the order of the code. *)
Definition phase (e : Effect) : nat :=
  match e with
  | FetchNarration => 0
  | FetchDataAndProcessResults => 1
  | BuildSectionWithNarration _ => 2
  | ScrollamaSetup _ _ => 3
  | BuildGraph _ _ _ => 4
  | Invoke _ _ => 5
  end.

(** The same phases in the order of the specification's control-flow
    sentence: the graph is built before the scroll observer is attached. *)
Definition spec_phase (e : Effect) : nat :=
  match e with
  | FetchNarration => 0
  | FetchDataAndProcessResults => 1
  | BuildSectionWithNarration _ => 2
  | BuildGraph _ _ _ => 3
  | ScrollamaSetup _ _ => 4
  | Invoke _ _ => 5
  end.

(** A trace respects a ranking when no call is followed by a call of a
    lower rank. *)
Definition in_order (rank : Effect → nat) (l : list Effect) : Prop :=
  StronglySorted (λ a b, (rank a ≤ rank b)%nat) l.

(** A computation whose calls all belong to phases [lo] to [hi] and are made
    in phase order. *)
Definition emits_within {A} (lo hi : nat) (m : M A) : Prop :=
  ∀ w, ∃ l,
    trace (snd (m w)) = (trace w ++ l)%list
    ∧ in_order phase l
    ∧ Forall (λ e, (lo ≤ phase e ≤ hi)%nat) l.

(** The section a call is made for, and the number of sections. *)
Definition section_of (e : Effect) : option SectionRef :=
  match e with
  | BuildSectionWithNarration i | ScrollamaSetup i _ | BuildGraph _ _ i =>
      Some i
  | FetchNarration | FetchDataAndProcessResults | Invoke _ _ => None
  end.

Definition tag (e : Effect) : nat * option SectionRef :=
  (phase e, section_of e).

Definition count_sections (w : World) : nat :=
  from_option length 0 (sectionList w).

(** The calls of a complete run, by phase and section: both fetches, the
    scaffolding of the first [m] sections, then the scroll observer of each
    of the [n] sections, then the graph of each of the [n] sections. *)
Definition phases_per_section (m n : nat) : list (nat * option SectionRef) :=
  ([(0, None); (1, None)]
   ++ ((λ i, (2, Some i)) <$> seq 0 m)
   ++ ((λ i, (3, Some i)) <$> seq 0 n)
   ++ ((λ i, (4, Some i)) <$> seq 0 n))%list.

(** A loop body that, when it completes, has made exactly one call, of
    phase [k] and for its own section, and has kept the array's length. *)
Definition one_call_each (k : nat) (body : SectionRef → M IterateeResult)
    : Prop :=
  ∀ i w r, fst (body i w) = Normal r →
    count_sections (snd (body i w)) = count_sections w
    ∧ ∃ e, trace (snd (body i w)) = (trace w ++ [e])%list
           ∧ tag e = (k, Some i).

(** The options [setup] receives for a section, and the section object once
    its scroll observer is attached. *)
Definition setup_options (s : SectionConfig) (names : CSSNames.t)
    (classes : gmap string string) : SetupOptions :=
  mkSetup
    ("#" +:+ CSSNames.sectionId names (sectionIdentifier s) +:+ " ."
     +:+ template (classes !! "narrationBlock"))
    ("#" +:+ CSSNames.sectionId names (sectionIdentifier s))
    ("#" +:+ CSSNames.graphId names (sectionIdentifier s))
    0.5%float true.

Definition attached (i : SectionRef) (s : SectionConfig) (names : CSSNames.t)
    (classes : gmap string string) : SectionConfig :=
  set_scroller
    (Some (mkScroller (Some (setup_options s names classes))
             (Some (section_handlers i s names))))
    s.

(** A configuration the validator must refuse, in the specification's
    words: a required field is missing, or two sections share their
    identifier. *)
Inductive Invalid (config : Config)
    : option (list SectionConfig) → Prop :=
  | missing_appContainerId sections :
      config_appContainerId config = None → Invalid config sections
  | missing_sectionList : Invalid config None
  | missing_sectionIdentifier l s :
      s ∈ l → sectionIdentifier s = None → Invalid config (Some l)
  | missing_narration l s :
      s ∈ l → narration s = None → Invalid config (Some l)
  | duplicate_sectionIdentifier l i j si sj :
      i ≠ j → l !! i = Some si → l !! j = Some sj →
      sectionIdentifier si = sectionIdentifier sj →
      Invalid config (Some l).

(** ** Loops over the section list, section by section *)

(** What one turn of a loop does to the section it runs on: how it
    completes, the section object it leaves, and the calls it makes. *)
Definition SectionStep : Type :=
  SectionRef → SectionConfig →
  Completion IterateeResult * SectionConfig * list Effect.

(** A loop over the sections not yet visited, from position [i] on. *)
Fixpoint run_sections (f : SectionStep) (i : nat) (todo : list SectionConfig)
    : Completion unit * list SectionConfig * list Effect :=
  match todo with
  | [] => (Normal tt, [], [])
  | s :: rest =>
      let '(r, s', es) := f i s in
      match r with
      | Normal Continue =>
          let '(r', rest', es') := run_sections f (S i) rest in
          (r', s' :: rest', (es ++ es')%list)
      | Normal ExitEarly => (Normal tt, s' :: rest, es)
      | Throw e => (Throw e, s' :: rest, es)
      end
  end.

(** A loop body that reads and writes only the section at its own position
    and otherwise only makes calls. *)
Definition acts_per_section (body : SectionRef → M IterateeResult)
    (f : SectionStep) : Prop :=
  ∀ i w l s, sectionList w = Some l → l !! i = Some s →
    body i w
    = let '(r, s', es) := f i s in
      (r, mkWorld (Some (<[i := s']> l)) (active w) (trace w ++ es)%list).

(** The section [_assignConfigVariablesToSectionConfigs] leaves. *)
Definition assigned (this : ScrollyTeller) (section : SectionConfig)
    : SectionConfig :=
  set_cssNames (Some (this_cssNames this))
    (set_appContainerId (this_appContainerId this)
       (set_useDefaultGraphCSS
          (Some (default true (useDefaultGraphCSS section)))
          (set_showSpacers
             (Some (default true (showSpacers section))) section))).

(** One turn of [_buildScrollamaContainers]. *)
Definition attach_step : SectionStep := λ i s,
  match cssNames s with
  | Some names =>
      match CSSNames.css names with
      | Some classes =>
          (Normal Continue, attached i s names classes,
           [ScrollamaSetup i (setup_options s names classes)])
      | None =>
          (Throw TypeError, set_scroller (Some (mkScroller None None)) s, [])
      end
  | None => (Throw TypeError, set_scroller (Some (mkScroller None None)) s, [])
  end.

Section Steps.
Context `{Collaborators}.

(** One turn of [_buildGraphs]. *)
Definition graph_step : SectionStep := λ i s,
  match _graphIdForSection s with
  | Normal gid =>
      match buildGraphFunction s with
      | Some f =>
          match callBuildGraph f gid s with
          | Normal g => (Normal Continue, set_graph g s, [BuildGraph f gid i])
          | Throw e => (Throw e, s, [BuildGraph f gid i])
          end
      | None => (Throw TypeError, s, [])
      end
  | Throw e => (Throw e, s, [])
  end.

(** One turn of [_buildSections]. *)
Definition scaffold_step : SectionStep := λ i s,
  let '(r, s') := buildSectionWithNarration s in
  (r, s', [BuildSectionWithNarration i]).

End Steps.

(** The call a turn of [_buildGraphs] makes for a section that has its
    names and its builder (other sections get no call; the last case only
    makes the function total). *)
Definition build_call (j : nat) (s : SectionConfig) : Effect :=
  match cssNames s, buildGraphFunction s with
  | Some names, Some f =>
      BuildGraph f (CSSNames.graphId names (sectionIdentifier s)) j
  | _, _ => BuildGraph 0 "" j
  end.

(** Sections whose graph gets built. *)
Definition buildable `{Collaborators} (s : SectionConfig) : Prop :=
  ∃ names f g,
    cssNames s = Some names ∧ buildGraphFunction s = Some f
    ∧ callBuildGraph f (CSSNames.graphId names (sectionIdentifier s)) s
      = Normal g.

(** ** The demo section: reshaping the data and building the graph *)

(** One record of the data file: a region name and four series. *)
Record Nation := mkNation {
  region : option string;
  population : list Value;
  income : list Value;
  lifeExpectancy : list Value;
  years : list Value;
}.

(** The d3 functions the demo imports: [extent] gives the least and the
    greatest value of an array, [scaleLinear] a linear map from a domain to
    a range. *)
Class D3 := {
  extent : list Value → Value * Value;
  scaleLinear : float * float → Value * Value → Value → float;
}.

(** What [reshapeDataFunction] returns. *)
Record Reshaped := mkReshaped {
  dataArray : list Nation;
  legendArray : list (option string);
  rDomain : Value * Value;
  xDomain : Value * Value;
  yDomain : Value * Value;
  yearDomain : Value * Value;
  reshaped_yearProgressScale : Value → float;
}.

(** [(acc, d) => acc.includes(d.region) ? acc : acc.concat(d.region)] *)
Definition add_region (acc : list (option string)) (d : Nation)
    : list (option string) :=
  if decide (region d ∈ acc) then acc else (acc ++ [region d])%list.

Section Reshape.
Context `{D3}.

(** [(acc, d) => acc.concat(...extent(series(d)))] *)
Definition add_extent (series : Nation → list Value) (acc : list Value)
    (d : Nation) : list Value :=
  (acc ++ [fst (extent (series d)); snd (extent (series d))])%list.

Definition processData (results : list Nation) : Reshaped :=
  let rDomain := extent (foldl (add_extent population) [] results) in
  let xDomain := extent (foldl (add_extent income) [] results) in
  let yDomain := extent (foldl (add_extent lifeExpectancy) [] results) in
  let yearDomain := extent (foldl (add_extent years) [] results) in
  let legendArray := foldl add_region [] results in
  let yearProgressScale := scaleLinear (0%float, 1%float) yearDomain in
  mkReshaped results legendArray rDomain xDomain yDomain yearDomain
    yearProgressScale.

End Reshape.

(** The options the chart component is constructed with. *)
Record ChartOptions := mkChartOptions {
  chart_container : string;
  chart_data : list Nation;
  chart_rDomain : Value * Value;
  chart_xDomain : Value * Value;
  chart_yDomain : Value * Value;
  chart_yearDomain : Value * Value;
  chart_legendArray : list (option string);
  chart_height : float;
  chart_width : float;
}.

(** Calls [buildGraphFunction] makes on the page. *)
Inductive BuildEffect :=
  | AppendCodeSnippet (selector : string)
  | NewChart (opts : ChartOptions).

(** The page [buildGraphFunction] works on: the element a selector finds,
    if any, and the chart component's constructor. *)
Class Page := {
  node : string → option GraphElement;
  newChart : ChartOptions → Completion GraphHandle;
}.

Section BuildGraph.
Context `{Page}.

(** [sectionConfig] as [buildGraphFunction] destructures it: its [data]. *)
Definition buildGraph (graphId : string) (sectionConfig_data : option Reshaped)
    : list BuildEffect * Completion GraphHandle :=
  match sectionConfig_data with
  | None => ([], Throw TypeError)
  | Some data =>
      let selector := "#" +:+ graphId in
      match node selector with
      | None => ([AppendCodeSnippet selector], Throw TypeError)
      | Some el =>
          let opts :=
            mkChartOptions selector (dataArray data) (rDomain data)
              (xDomain data) (yDomain data) (yearDomain data)
              (legendArray data)
              (offsetHeight el * 0.9)%float (offsetWidth el * 0.9)%float in
          ([AppendCodeSnippet selector; NewChart opts], newChart opts)
      end
  end.

End BuildGraph.

(** ** A small story used in the examples *)

Definition story_names : CSSNames.t :=
  CSSNames.mk (Some {[ "narrationBlock" := "narration" ]})
    (λ id, "section_" +:+ template id)
    (λ id, "graph_" +:+ template id).

Definition story_collaborators : Collaborators := {|
  defaultCSSNames := story_names;
  fetchNarration := λ l, (Normal tt, l);
  fetchDataAndProcessResults := λ l, (Normal tt, l);
  buildSectionWithNarration := λ s, (Normal Continue, s);
  callBuildGraph := λ f _ _, Normal (Some f);
  callUser := λ _ _, Normal tt;
|}.

Definition story_narration : list NarrationEntry :=
  [ {[ "trigger" := "year:1950" ]};
    {[ "paragraphText" := "a block without a trigger" ]} ].

Definition story_section : SectionConfig :=
  mkSection (Some "healthAndWealth") (Some (Rows story_narration)) None
    None None None (Some story_names) (Some 7) (Some 1) (Some 2) None None.

Definition story_world : World := mkWorld (Some [story_section]) ∅ [].

Definition story_config : Config := mkConfig (Some "app") None.

(** Two sections that share their identifier. *)
Definition twin_world : World :=
  mkWorld (Some [story_section; story_section]) ∅ [].

(** Built-ins for the demo examples.  [floor] keeps a zero; below 2^52 in
    magnitude it rounds to the nearest integer by adding and removing 2^52
    and steps down when that went up; other doubles are integers,
    infinities or NaN already.  [to_number] reads a number as it
    is, an undefined value as NaN, the empty text as zero and a run of
    decimal digits as the integer it spells; other texts do not occur in the
    examples and read as NaN. *)
Definition two_52 : float := 4503599627370496%float.

Definition floor (x : float) : float :=
  if PrimFloat.eqb x 0 then x
  else if PrimFloat.ltb (PrimFloat.abs x) two_52 then
    let r :=
      if PrimFloat.ltb x 0
      then ((x - two_52) + two_52)%float
      else ((x + two_52) - two_52)%float in
    if PrimFloat.ltb x r then (r - 1)%float else r
  else x.

Definition digit_value (c : Ascii.ascii) : option float :=
  match c with
  | "0"%char => Some 0%float
  | "1"%char => Some 1%float
  | "2"%char => Some 2%float
  | "3"%char => Some 3%float
  | "4"%char => Some 4%float
  | "5"%char => Some 5%float
  | "6"%char => Some 6%float
  | "7"%char => Some 7%float
  | "8"%char => Some 8%float
  | "9"%char => Some 9%float
  | _ => None
  end.

Fixpoint read_digits (acc : float) (s : string) : float :=
  match s with
  | EmptyString => acc
  | String c s' =>
      match digit_value c with
      | Some d => read_digits (acc * 10 + d)%float s'
      | None => PrimFloat.nan
      end
  end.

Definition to_number (v : Value) : float :=
  match v with
  | VUndefined => PrimFloat.nan
  | VString s => read_digits 0%float s
  | VNumber x => x
  end.

Definition story_builtins : Builtins := {|
  Math_floor := floor;
  Number := to_number;
  snippets := λ v,
    match v with
    | VString "intro" => Some "const story = new ScrollyTeller(config);"
    | _ => None
    end;
|}.

(** A linear scale from progress in [0, 1] to the years 1950 to 2008. *)
Definition story_data : DemoData :=
  mkDemoData (λ v, (1950 + to_number v * 58)%float).

Definition story_demo_section : DemoSection :=
  mkDemoSection (Some 7) (Some story_data).

Definition scroll_params : DemoParams :=
  mkDemoParams (Some "graph_healthAndWealth")
    (Some {[ "yearProgress" := VNumber 0.5%float ]})
    (Some story_demo_section) None.

Definition activate_params : DemoParams :=
  mkDemoParams (Some "graph_healthAndWealth")
    (Some {[ "year" := VString "1962"; "snippet" := VString "intro" ]})
    (Some story_demo_section) None.

Definition resize_params : DemoParams :=
  mkDemoParams (Some "graph_healthAndWealth") None
    (Some story_demo_section)
    (Some (mkGraphElement 1000%float 500%float)).

(** Further fixtures: the instance the story is constructed into, a
    section that has neither names nor callbacks nor a graph builder, and
    worlds built from them. *)
Definition story_this : ScrollyTeller :=
  mkScrollyTeller (Some "app") story_names.

Definition bare_section : SectionConfig :=
  mkSection (Some "bare") (Some (Rows [])) None (Some false) None None None
    None None None None None.

Definition mixed_world : World :=
  mkWorld (Some [story_section; bare_section]) ∅ [].

Definition empty_world : World := mkWorld (Some []) ∅ [].

(** Collaborators whose narration file cannot be fetched, and collaborators
    whose graph builder throws. *)
Definition rejecting_collaborators : Collaborators := {|
  defaultCSSNames := story_names;
  fetchNarration := λ l, (Throw (Rejection "narration.csv"), l);
  fetchDataAndProcessResults := λ l, (Normal tt, l);
  buildSectionWithNarration := λ s, (Normal Continue, s);
  callBuildGraph := λ f _ _, Normal (Some f);
  callUser := λ _ _, Normal tt;
|}.

Definition throwing_builder : Collaborators := {|
  defaultCSSNames := story_names;
  fetchNarration := λ l, (Normal tt, l);
  fetchDataAndProcessResults := λ l, (Normal tt, l);
  buildSectionWithNarration := λ s, (Normal Continue, s);
  callBuildGraph := λ _ _ _, Throw (Rejection "no container");
  callUser := λ _ _, Normal tt;
|}.

(** d3 for the examples: the extent of the numbers of an array (other
    values and NaN are skipped), and the linear scale between two numeric
    ranges. *)
Definition widen (bounds : Value * Value) (v : Value) : Value * Value :=
  match v with
  | VNumber x =>
      if PrimFloat.is_nan x then bounds
      else
        (match fst bounds with
         | VNumber lo => if PrimFloat.ltb x lo then v else fst bounds
         | _ => v
         end,
         match snd bounds with
         | VNumber hi => if PrimFloat.ltb hi x then v else snd bounds
         | _ => v
         end)
  | _ => bounds
  end.

Definition story_d3 : D3 := {|
  extent := foldl widen (VUndefined, VUndefined);
  scaleLinear := λ domain range v,
    (to_number (fst range)
     + (to_number v - fst domain) / (snd domain - fst domain)
       * (to_number (snd range) - to_number (fst range)))%float;
|}.

Definition story_nations : list Nation :=
  [ mkNation (Some "Asia") [VNumber 10%float; VNumber 30%float]
      [VNumber 500%float; VNumber 900%float]
      [VNumber 40%float; VNumber 60%float]
      [VNumber 1950%float; VNumber 2008%float];
    mkNation (Some "Europe") [VNumber 20%float; VNumber 25%float]
      [VNumber 3000%float; VNumber 9000%float]
      [VNumber 65%float; VNumber 80%float]
      [VNumber 1950%float; VNumber 2008%float];
    mkNation (Some "Asia") [VNumber 5%float; VNumber 8%float]
      [VNumber 700%float; VNumber 2000%float]
      [VNumber 45%float; VNumber 70%float]
      [VNumber 1950%float; VNumber 2008%float] ].

Definition story_reshaped : Reshaped :=
  processData (H:=story_d3) story_nations.

(** A page on which the story's graph element measures 1000 by 500. *)
Definition story_page : Page := {|
  node := λ selector,
    if decide (selector = "#graph_healthAndWealth")
    then Some (mkGraphElement 1000%float 500%float) else None;
  newChart := λ _, Normal 7;
|}.

(** * Verification *)

(** ** The scroll handlers *)

Section HandlerFacts.
Context `{Collaborators}.

Lemma trigger_at_rows (src : option (Source NarrationEntry))
    (rows : list NarrationEntry) (entry : NarrationEntry) (idx : nat)
    (w : World) :
  src = Some (Rows rows) →
  rows !! idx = Some entry →
  trigger_at src idx w = (Normal (default "" (entry !! "trigger")), w).
Proof.
  intros -> Hentry.
  unfold trigger_at, mbind, M_bind, lift, narration_index.
  by rewrite Hentry.
Qed.

Lemma call_spec (cb : Callback) (args : CallbackArgs) (w : World) :
  call cb args w
  = (outcome cb args,
     mkWorld (sectionList w) (active w) (trace w ++ [Invoke cb args])).
Proof. reflexivity. Qed.

(** Looking a trigger up reads the captured narration and nothing else. *)
Lemma trigger_at_world (src : option (Source NarrationEntry)) (idx : nat)
    (w : World) :
  (trigger_at src idx w).2 = w.
Proof.
  unfold trigger_at, mbind, M_bind, lift.
  destruct (narration_index src idx) as [v|e]; [|done].
  by destruct (destructure_trigger v).
Qed.

(** What a handler does to the flags, whatever the narration holds. *)
Lemma onStepEnter_active (env : Closure) (el : Element) (idx : nat)
    (dir : Direction) (w : World) :
  active (onStepEnter env el idx dir w).2 = active w
  ∨ active (onStepEnter env el idx dir w).2 = active w ∪ {[el]}.
Proof.
  unfold onStepEnter, mbind, M_bind.
  pose proof (trigger_at_world (env_narration env) idx w) as Hw.
  destruct (trigger_at (env_narration env) idx w) as [[trig|e] w'];
    simpl in Hw; subst w'.
  - right. reflexivity.
  - left. reflexivity.
Qed.

Lemma onStepProgress_active (env : Closure) (el : Element) (idx : nat)
    (dir : Direction) (p : float) (w : World) :
  active (onStepProgress env el idx dir p w).2 = active w.
Proof.
  unfold onStepProgress, mbind, M_bind.
  pose proof (trigger_at_world (env_narration env) idx w) as Hw.
  destruct (trigger_at (env_narration env) idx w) as [[trig|e] w'];
    simpl in Hw; subst w'; reflexivity.
Qed.

(** The flags of the section's steps stay within the step the stream has
    entered. *)
Lemma run_events_within (env : Closure) (steps : gset Element)
    (evs : list ScrollEvent) (cur : option Element) (w : World) :
  paired cur evs = true →
  (∀ x, x ∈ active w → x ∈ steps → cur = Some x) →
  ∃ cur', ∀ x,
    x ∈ active (run_events env evs w) → x ∈ steps → cur' = Some x.
Proof.
  revert cur w. induction evs as [|ev evs IH]; intros cur w Hp Hin.
  - by exists cur.
  - simpl in Hp. apply andb_prop in Hp as [Hhead Htail].
    apply (IH (entered_after cur ev) (dispatch env ev w).2 Htail).
    intros x Hx Hs. destruct ev as [el idx dir|el idx dir|el idx dir p];
      simpl in *.
    + destruct (onStepEnter_active env el idx dir w) as [Heq|Heq];
        rewrite Heq in Hx.
      * specialize (Hin x Hx Hs). subst cur.
        apply bool_decide_eq_true in Hhead. by subst.
      * apply elem_of_union in Hx as [Hx|Hx].
        -- specialize (Hin x Hx Hs). subst cur.
           apply bool_decide_eq_true in Hhead. by subst.
        -- apply elem_of_singleton in Hx. by subst.
    + apply elem_of_difference in Hx as [Hx Hne].
      specialize (Hin x Hx Hs). subst cur.
      rewrite decide_False; [done|].
      intros [= ->]. apply Hne. by apply elem_of_singleton.
    + rewrite onStepProgress_active in Hx. by apply Hin.
Qed.

Lemma paired_take (evs : list ScrollEvent) (cur : option Element) (n : nat) :
  paired cur evs = true → paired cur (take n evs) = true.
Proof.
  revert cur n. induction evs as [|ev evs IH]; intros cur [|n]; try done.
  simpl. intros [Hhead Htail]%andb_prop.
  by rewrite Hhead, (IH _ n Htail).
Qed.

End HandlerFacts.

(** C3: handling StepEnter for index [idx] and direction [dir] marks the
    entered element active and calls the section's
    [onActivateNarrationFunction] (lodash's [noop] when the section defines
    none) exactly once, with [index = idx], [progress = 0], the entered
    element, the trigger of narration entry [idx] (the empty text when the
    entry has none), [direction = dir], the section's graph id and the
    section object.  Nothing else is called and nothing else changes. *)
Theorem step_enter_activates_and_calls_once `{Collaborators}
    (i : SectionRef) (s : SectionConfig) (names : CSSNames.t)
    (rows : list NarrationEntry) (entry : NarrationEntry)
    (el : Element) (idx : nat) (dir : Direction) (w : World) :
  narration s = Some (Rows rows) →
  rows !! idx = Some entry →
  let cb := from_option UserCallback noop (onActivateNarrationFunction s) in
  let args :=
    mkArgs idx 0%float el (default "" (entry !! "trigger")) dir
      (CSSNames.graphId names (sectionIdentifier s)) i in
  onStepEnter (section_handlers i s names) el idx dir w
  = (outcome cb args,
     mkWorld (sectionList w) (active w ∪ {[el]})
       (trace w ++ [Invoke cb args])).
Proof.
  intros Hnarr Hentry cb args.
  unfold onStepEnter, mbind, M_bind.
  rewrite (trigger_at_rows (env_narration (section_handlers i s names))
             rows entry idx w Hnarr Hentry).
  reflexivity.
Qed.

Lemma step_enter_activates_and_calls_once_witness :
  onStepEnter (H:=story_collaborators)
    (section_handlers 0 story_section story_names) 10 0 down story_world
  = (Normal tt,
     mkWorld (Some [story_section]) (∅ ∪ {[10]})
       [Invoke (UserCallback 2)
          (mkArgs 0 0%float 10 "year:1950" down "graph_healthAndWealth" 0)]).
Proof.
  exact (step_enter_activates_and_calls_once (H:=story_collaborators)
           0 story_section story_names story_narration
           {[ "trigger" := "year:1950" ]} 10 0 down story_world
           eq_refl eq_refl).
Defined.

(** C4: handling StepProgress for index [idx], direction [dir] and progress
    [p] calls the section's [onScrollFunction] with [index = idx],
    [progress = p] exactly as received, the element, the trigger of
    narration entry [idx], [direction = dir], the graph id and the section
    object; the handler keeps no memory of earlier progress values and
    changes nothing else. *)
Theorem step_progress_passes_through `{Collaborators}
    (i : SectionRef) (s : SectionConfig) (names : CSSNames.t)
    (rows : list NarrationEntry) (entry : NarrationEntry)
    (el : Element) (idx : nat) (dir : Direction) (p : float) (w : World) :
  narration s = Some (Rows rows) →
  rows !! idx = Some entry →
  let cb := from_option UserCallback noop (onScrollFunction s) in
  let args :=
    mkArgs idx p el (default "" (entry !! "trigger")) dir
      (CSSNames.graphId names (sectionIdentifier s)) i in
  onStepProgress (section_handlers i s names) el idx dir p w
  = (outcome cb args,
     mkWorld (sectionList w) (active w) (trace w ++ [Invoke cb args])).
Proof.
  intros Hnarr Hentry cb args.
  unfold onStepProgress, mbind, M_bind.
  rewrite (trigger_at_rows (env_narration (section_handlers i s names))
             rows entry idx w Hnarr Hentry).
  reflexivity.
Qed.

(** A progress value above one, reported after a larger one, reaches the
    callback as it is. *)
Lemma step_progress_passes_through_witness :
  trace (run_events (H:=story_collaborators)
           (section_handlers 0 story_section story_names)
           [StepProgress 10 0 up 2.5%float] story_world)
  = [Invoke (UserCallback 1)
       (mkArgs 0 2.5%float 10 "year:1950" up "graph_healthAndWealth" 0)].
Proof.
  exact (f_equal (λ r, trace r.2)
           (step_progress_passes_through (H:=story_collaborators)
              0 story_section story_names story_narration
              {[ "trigger" := "year:1950" ]} 10 0 up 2.5%float story_world
              eq_refl eq_refl)).
Defined.

(** An index without a narration entry: the destructuring throws before
    the element is flagged and before any callback is called. *)
Example step_enter_without_entry :
  onStepEnter (H:=story_collaborators)
    (section_handlers 0 story_section story_names) 12 2 down story_world
  = (Throw TypeError, story_world).
Proof. reflexivity. Qed.

(** C8: handling StepExit removes the flag from the exited element and does
    nothing else: the trace gains no call, the section objects and the
    flags of all other elements stay as they were, and the handler completes
    normally whatever was reported before. *)
Theorem step_exit_only_clears_flag `{Collaborators}
    (env : Closure) (el : Element) (idx : nat) (dir : Direction)
    (w : World) :
  dispatch env (StepExit el idx dir) w
  = (Normal tt, mkWorld (sectionList w) (active w ∖ {[el]}) (trace w))
  ∧ (el ∉ active (snd (dispatch env (StepExit el idx dir) w)))
  ∧ (∀ x, x ≠ el →
       x ∈ active (snd (dispatch env (StepExit el idx dir) w)) ↔ x ∈ active w).
Proof.
  split; [reflexivity|]. simpl. split.
  - rewrite elem_of_difference, elem_of_singleton. tauto.
  - intros x Hx. rewrite elem_of_difference, elem_of_singleton. tauto.
Qed.

(** C10: when the narration entry at the event's index exists and has no
    [trigger] property, both the StepEnter and the StepProgress handler call
    the callback with [trigger] equal to the empty text, and the handler
    completes as the callback does. *)
Theorem missing_trigger_defaults_to_empty `{Collaborators}
    (i : SectionRef) (s : SectionConfig) (names : CSSNames.t)
    (rows : list NarrationEntry) (entry : NarrationEntry)
    (el : Element) (idx : nat) (dir : Direction) (p : float) (w : World) :
  narration s = Some (Rows rows) →
  rows !! idx = Some entry →
  entry !! "trigger" = None →
  let env := section_handlers i s names in
  let enter_args := mkArgs idx 0%float el "" dir (env_graphId env) i in
  let progress_args := mkArgs idx p el "" dir (env_graphId env) i in
  onStepEnter env el idx dir w
  = (outcome (env_onActivateNarrationFunction env) enter_args,
     mkWorld (sectionList w) (active w ∪ {[el]})
       (trace w ++ [Invoke (env_onActivateNarrationFunction env) enter_args]))
  ∧ onStepProgress env el idx dir p w
  = (outcome (env_onScrollFunction env) progress_args,
     mkWorld (sectionList w) (active w)
       (trace w ++ [Invoke (env_onScrollFunction env) progress_args])).
Proof.
  intros Hnarr Hentry Hnone env enter_args progress_args.
  unfold onStepEnter, onStepProgress, mbind, M_bind.
  rewrite (trigger_at_rows (env_narration env) rows entry idx w Hnarr Hentry),
    Hnone.
  split; reflexivity.
Qed.

Lemma missing_trigger_defaults_to_empty_witness :
  (onStepEnter (H:=story_collaborators)
     (section_handlers 0 story_section story_names) 11 1 down story_world).1
  = Normal tt
  ∧ trace (onStepProgress (H:=story_collaborators)
             (section_handlers 0 story_section story_names) 11 1 down
             0.5%float story_world).2
  = [Invoke (UserCallback 1)
       (mkArgs 1 0.5%float 11 "" down "graph_healthAndWealth" 0)].
Proof.
  pose proof (missing_trigger_defaults_to_empty (H:=story_collaborators)
                0 story_section story_names story_narration
                {[ "paragraphText" := "a block without a trigger" ]}
                11 1 down 0.5%float story_world
                eq_refl eq_refl eq_refl) as [Henter Hprogress].
  split.
  - exact (f_equal fst Henter).
  - exact (f_equal (λ r, trace r.2) Hprogress).
Defined.

(** ** Exclusive activation *)

(** C2, as the claim states it, fails: two enters in a row leave both
    elements flagged, because the enter handler never clears a flag. *)
Lemma second_enter_keeps_first_active :
  let w := run_events (H:=story_collaborators)
             (section_handlers 0 story_section story_names)
             [StepEnter 10 0 down; StepEnter 11 1 down] story_world in
  10 ∈ active w ∧ 11 ∈ active w ∧ ¬ exclusive {[10; 11]} w.
Proof.
  intros w. split; [|split].
  - vm_compute. set_solver.
  - vm_compute. set_solver.
  - unfold exclusive. vm_compute. lia.
Qed.

(** C2 (amended): the enter handler flags the entered element and leaves
    every other flag as it was; so when each step is entered only after the
    step entered before it was left, at most one narration element of the
    section is flagged at any instant, that is, after every prefix of the
    stream. *)
Theorem paired_stream_is_exclusive `{Collaborators}
    (env : Closure) (steps : gset Element) (evs : list ScrollEvent)
    (w : World) :
  active w ∩ steps = ∅ →
  paired None evs = true →
  (∀ n, exclusive steps (run_events env (take n evs) w))
  ∧ (∀ el idx dir x, x ≠ el →
       x ∈ active (snd (onStepEnter env el idx dir w)) ↔ x ∈ active w).
Proof.
  intros Hnone Hpaired. split.
  - intros n.
    destruct (run_events_within env steps (take n evs) None w
                (paired_take evs None n Hpaired)) as [cur Hcur].
    { intros x Hx Hs. exfalso.
      assert (x ∈ active w ∩ steps) as Hin by (by apply elem_of_intersection).
      rewrite Hnone in Hin. by apply not_elem_of_empty in Hin. }
    unfold exclusive. destruct cur as [c|].
    + rewrite <- (size_singleton (C:=gset Element) c).
      apply subseteq_size. intros x Hx.
      apply elem_of_intersection in Hx as [Hx Hs].
      specialize (Hcur x Hx Hs). apply elem_of_singleton. congruence.
    + assert (active (run_events env (take n evs) w) ∩ steps = ∅) as ->.
      { apply leibniz_equiv, elem_of_equiv_empty. intros x Hx.
        apply elem_of_intersection in Hx as [Hx Hs].
        by specialize (Hcur x Hx Hs). }
      rewrite size_empty. lia.
  - intros el idx dir x Hne.
    destruct (onStepEnter_active env el idx dir w) as [-> | ->]; [done|].
    rewrite elem_of_union, elem_of_singleton. tauto.
Qed.

Lemma paired_stream_is_exclusive_witness :
  exclusive {[10; 11]}
    (run_events (H:=story_collaborators)
       (section_handlers 0 story_section story_names)
       (take 4 [StepEnter 10 0 down; StepProgress 10 0 down 0.5%float;
                StepExit 10 0 down; StepEnter 11 1 down])
       story_world).
Proof.
  refine (proj1 (paired_stream_is_exclusive (H:=story_collaborators)
                   (section_handlers 0 story_section story_names)
                   {[10; 11]}
                   [StepEnter 10 0 down; StepProgress 10 0 down 0.5%float;
                    StepExit 10 0 down; StepEnter 11 1 down]
                   story_world _ _) 4).
  - vm_compute. reflexivity.
  - reflexivity.
Defined.

(** ** The phases of [render] *)

Section RenderFacts.
Context `{Collaborators}.

Lemma emits_silent {A} (lo hi : nat) (m : M A) :
  (∀ w, trace (snd (m w)) = trace w) → emits_within lo hi m.
Proof.
  intros Hm w. exists []. rewrite Hm, app_nil_r.
  repeat split; constructor.
Qed.

Lemma emits_emit (e : Effect) : emits_within (phase e) (phase e) (emit e).
Proof.
  intros w. exists [e]. split; [done|]. split.
  - repeat constructor.
  - by repeat constructor.
Qed.

Lemma emits_weaken {A} (lo hi lo' hi' : nat) (m : M A) :
  (lo' ≤ lo)%nat → (hi ≤ hi')%nat →
  emits_within lo hi m → emits_within lo' hi' m.
Proof.
  intros Hlo Hhi Hm w. destruct (Hm w) as (l & Ht & Hs & Hf).
  exists l. repeat split; [done..|].
  eapply Forall_impl; [exact Hf|]. simpl. lia.
Qed.

Lemma emits_bind {A B} (lo mid hi : nat) (m : M A) (k : A → M B) :
  (lo ≤ mid)%nat → (mid ≤ hi)%nat →
  emits_within lo mid m →
  (∀ a, emits_within mid hi (k a)) →
  emits_within lo hi (m ≫= k).
Proof.
  intros Hlo Hhi Hm Hk w. unfold mbind, M_bind.
  destruct (Hm w) as (l1 & Ht1 & Hs1 & Hf1).
  destruct (m w) as [[a|e] w1]; simpl in Ht1.
  - destruct (Hk a w1) as (l2 & Ht2 & Hs2 & Hf2).
    exists (l1 ++ l2)%list. split; [|split].
    + by rewrite Ht2, Ht1, app_assoc.
    + apply StronglySorted_app_2; [|done..].
      intros x y Hx Hy.
      pose proof (proj1 (Forall_forall _ _) Hf1 x Hx).
      pose proof (proj1 (Forall_forall _ _) Hf2 y Hy). simpl in *. lia.
    + apply Forall_app. split.
      * eapply Forall_impl; [exact Hf1|]. simpl. lia.
      * eapply Forall_impl; [exact Hf2|]. simpl. lia.
  - exists l1. repeat split; [done..|].
    eapply Forall_impl; [exact Hf1|]. simpl. lia.
Qed.

Lemma emits_forEach_from (k : nat) (body : SectionRef → M IterateeResult) :
  (∀ i, emits_within k k (body i)) →
  ∀ count i, emits_within k k (forEach_from body i count).
Proof.
  intros Hbody count. induction count as [|count IH]; intros i; simpl.
  - by apply emits_silent.
  - apply (emits_bind k k k); [done..|].
    intros [|]; [apply IH|by apply emits_silent].
Qed.

Lemma emits_forEach (k : nat) (body : SectionRef → M IterateeResult) :
  (∀ i, emits_within k k (body i)) → emits_within k k (forEach body).
Proof.
  intros Hbody w. unfold forEach. destruct (sectionList w) as [l|] eqn:Hl.
  - apply (emits_forEach_from k body Hbody).
  - exists []. rewrite app_nil_r. repeat split; constructor.
Qed.

Lemma getSection_trace (i : SectionRef) (w : World) :
  trace (snd (getSection i w)) = trace w.
Proof. unfold getSection. by destruct (sectionList w ≫= _). Qed.

Lemma onSection_trace {A} (i : SectionRef)
    (f : SectionConfig → Completion A * SectionConfig) (w : World) :
  trace (snd (onSection i f w)) = trace w.
Proof.
  unfold onSection, mbind, M_bind, getSection.
  destruct (sectionList w ≫= _) as [s|]; [|done].
  by destruct (f s) as [[a|e] s'].
Qed.

Lemma onSectionList_trace
    (f : option (list SectionConfig) →
         Completion unit * option (list SectionConfig)) (w : World) :
  trace (snd (onSectionList f w)) = trace w.
Proof. unfold onSectionList. by destruct (f (sectionList w)). Qed.

Lemma _buildSections_emits : emits_within 2 2 _buildSections.
Proof.
  apply emits_forEach. intros i.
  apply (emits_bind 2 2 2); [done..| |intros _].
  - apply (emits_emit (BuildSectionWithNarration i)).
  - apply emits_silent, onSection_trace.
Qed.

Lemma _buildScrollamaContainers_emits :
  emits_within 3 3 _buildScrollamaContainers.
Proof.
  apply emits_forEach. intros i.
  apply (emits_bind 3 3 3); [done..| |intros s].
  { apply emits_silent, getSection_trace. }
  apply (emits_bind 3 3 3); [done..| |intros _].
  { by apply emits_silent. }
  apply (emits_bind 3 3 3); [done..| |intros names].
  { apply emits_silent. intros w. by destruct (cssNames s). }
  apply (emits_bind 3 3 3); [done..| |intros block].
  { apply emits_silent. intros w. by destruct (cssNames s ≫= CSSNames.css). }
  apply (emits_bind 3 3 3); [done..| |intros _].
  { apply (emits_emit (ScrollamaSetup i _)). }
  apply (emits_bind 3 3 3); [done..| |intros _]; by apply emits_silent.
Qed.

Lemma _buildGraphs_emits : emits_within 4 4 _buildGraphs.
Proof.
  apply emits_forEach. intros i.
  apply (emits_bind 4 4 4); [done..| |intros config].
  { apply emits_silent, getSection_trace. }
  apply (emits_bind 4 4 4); [done..| |intros gid].
  { by apply emits_silent. }
  destruct (buildGraphFunction config) as [f|]; [|by apply emits_silent].
  apply (emits_bind 4 4 4); [done..| |intros _].
  { apply (emits_emit (BuildGraph f gid i)). }
  apply (emits_bind 4 4 4); [done..| |intros g].
  { by apply emits_silent. }
  apply (emits_bind 4 4 4); [done..| |intros _]; by apply emits_silent.
Qed.

Lemma render_emits : emits_within 0 4 render.
Proof.
  unfold render.
  apply (emits_bind 0 0 4); [lia..| |intros _].
  { apply (emits_emit FetchNarration). }
  apply (emits_bind 0 0 4); [lia..| |intros _].
  { apply emits_silent, onSectionList_trace. }
  apply (emits_bind 0 1 4); [lia..| |intros _].
  { apply (emits_weaken 1 1); [lia..|].
    apply (emits_emit FetchDataAndProcessResults). }
  apply (emits_bind 1 1 4); [lia..| |intros _].
  { apply emits_silent, onSectionList_trace. }
  apply (emits_bind 1 2 4); [lia..| |intros _].
  { apply (emits_weaken 2 2); [lia..|]. apply _buildSections_emits. }
  apply (emits_bind 2 3 4); [lia..| |intros _].
  { apply (emits_weaken 3 3); [lia..|].
    apply _buildScrollamaContainers_emits. }
  apply (emits_weaken 4 4); [lia..|]. apply _buildGraphs_emits.
Qed.

(** Complete runs: every loop makes one call per section. *)

Ltac run :=
  cbv beta iota zeta delta
    [mbind M_bind mret M_ret mthrow M_throw emit lift getSection
     modifySection onSection onSectionList fst snd] in *.

Lemma bind_normal_inv {A B} (m : M A) (k : A → M B) (w : World) (b : B) :
  fst ((m ≫= k) w) = Normal b →
  ∃ a w1, m w = (Normal a, w1) ∧ (m ≫= k) w = k a w1.
Proof.
  unfold mbind, M_bind. destruct (m w) as [[a|e] w1]; [|done].
  intros _. by exists a, w1.
Qed.

Lemma forEach_from_complete (k : nat) (body : SectionRef → M IterateeResult) :
  one_call_each k body →
  ∀ count i w, fst (forEach_from body i count w) = Normal tt →
  ∃ m l, (m ≤ count)%nat
    ∧ count_sections (snd (forEach_from body i count w)) = count_sections w
    ∧ trace (snd (forEach_from body i count w)) = (trace w ++ l)%list
    ∧ tag <$> l = (λ j, (k, Some j)) <$> seq i m
    ∧ ((∀ j w', fst (body j w') ≠ Normal ExitEarly) → m = count).
Proof.
  intros Hbody count. induction count as [|count IH]; intros i w Hn.
  - exists 0, []. simpl. by rewrite app_nil_r.
  - simpl in *. apply bind_normal_inv in Hn as Hinv.
    destruct Hinv as (r & w1 & Hb & Hrun). rewrite Hrun in *.
    destruct (Hbody i w r) as (Hc & e & Ht & Htag); [by rewrite Hb|].
    rewrite Hb in Hc, Ht. simpl in Hc, Ht.
    destruct r.
    + destruct (IH (S i) w1 Hn) as (m & l & Hm & Hc' & Ht' & Hl & Hall).
      exists (S m), (e :: l). repeat split.
      * lia.
      * congruence.
      * by rewrite Ht', Ht, <- app_assoc.
      * change (seq i (S m)) with (i :: seq (S i) m).
        by rewrite !fmap_cons, Htag, Hl.
      * intros Hne. by rewrite (Hall Hne).
    + exists 1, [e]. repeat split.
      * lia.
      * done.
      * done.
      * change (seq i 1) with [i]. by rewrite !fmap_cons, Htag.
      * intros Hne. exfalso. apply (Hne i w). by rewrite Hb.
Qed.

Lemma forEach_complete (k : nat) (body : SectionRef → M IterateeResult)
    (w : World) :
  one_call_each k body →
  fst (forEach body w) = Normal tt →
  ∃ m l, (m ≤ count_sections w)%nat
    ∧ count_sections (snd (forEach body w)) = count_sections w
    ∧ trace (snd (forEach body w)) = (trace w ++ l)%list
    ∧ tag <$> l = (λ j, (k, Some j)) <$> seq 0 m
    ∧ ((∀ j w', fst (body j w') ≠ Normal ExitEarly) → m = count_sections w).
Proof.
  intros Hbody. unfold forEach, count_sections.
  destruct (sectionList w) as [l|] eqn:Hl; simpl.
  - intros Hn.
    destruct (forEach_from_complete k body Hbody (length l) 0 w Hn)
      as (m & l' & Hm & Hc & Ht & Hl' & Hall).
    exists m, l'. unfold count_sections in Hc. rewrite Hl in Hc. done.
  - intros _. exists 0, []. rewrite Hl. simpl. by rewrite app_nil_r.
Qed.

Lemma _buildSections_one_call :
  ∃ body, _buildSections = forEach body ∧ one_call_each 2 body
    ∧ ((∀ s, fst (buildSectionWithNarration s) ≠ Normal ExitEarly) →
       ∀ j w', fst (body j w') ≠ Normal ExitEarly).
Proof.
  eexists. split; [reflexivity|]. split.
  - intros i w r. run. simpl.
    destruct (option_bind _ _ _ _) as [s|]; [|done].
    destruct (buildSectionWithNarration s) as [[r'|e] s']; [|done].
    intros _. split.
    + unfold count_sections. simpl. destruct (sectionList w); simpl; [|done].
      by rewrite length_alter.
    + by eexists.
  - intros Hne i w. run. simpl.
    destruct (option_bind _ _ _ _) as [s|]; [|done].
    specialize (Hne s).
    by destruct (buildSectionWithNarration s) as [[r'|e] s'].
Qed.

Lemma _buildScrollamaContainers_one_call :
  ∃ body, _buildScrollamaContainers = forEach body ∧ one_call_each 3 body
    ∧ ∀ j w', fst (body j w') ≠ Normal ExitEarly.
Proof.
  eexists. split; [reflexivity|]. split.
  - intros i w r. run. simpl.
    destruct (option_bind _ _ _ _) as [s|]; [|done].
    destruct (cssNames s) as [names|]; [|done]. simpl.
    destruct (CSSNames.css names) as [classes|]; [|done]. simpl.
    intros _. split.
    + unfold count_sections. simpl. destruct (sectionList w); simpl; [|done].
      by rewrite !length_alter.
    + by eexists.
  - intros i w. run. simpl.
    destruct (option_bind _ _ _ _) as [s|]; [|done].
    destruct (cssNames s) as [names|]; [|done]. simpl.
    by destruct (CSSNames.css names) as [classes|].
Qed.

Lemma _buildGraphs_one_call :
  ∃ body, _buildGraphs = forEach body ∧ one_call_each 4 body
    ∧ ∀ j w', fst (body j w') ≠ Normal ExitEarly.
Proof.
  eexists. split; [reflexivity|]. split.
  - intros i w r. run. simpl.
    destruct (option_bind _ _ _ _) as [s|]; [|done].
    destruct (_graphIdForSection s) as [gid|]; [|done].
    destruct (buildGraphFunction s) as [f|]; [|done]. run. simpl.
    destruct (callBuildGraph f gid s) as [g|]; [|done].
    intros _. split.
    + unfold count_sections. simpl. destruct (sectionList w); simpl; [|done].
      by rewrite !length_alter.
    + by eexists.
  - intros i w. run. simpl.
    destruct (option_bind _ _ _ _) as [s|]; [|done].
    destruct (_graphIdForSection s) as [gid|]; [|done].
    destruct (buildGraphFunction s) as [f|]; [|done]. run. simpl.
    by destruct (callBuildGraph f gid s) as [g|].
Qed.

Lemma render_complete (w : World) :
  fst (render w) = Normal tt →
  ∃ m l, (m ≤ count_sections (snd (render w)))%nat
    ∧ trace (snd (render w)) = (trace w ++ l)%list
    ∧ tag <$> l = phases_per_section m (count_sections (snd (render w)))
    ∧ ((∀ s, fst (buildSectionWithNarration s) ≠ Normal ExitEarly) →
       m = count_sections (snd (render w))).
Proof.
  destruct _buildSections_one_call as (b2 & E2 & Hb2 & Hx2).
  destruct _buildScrollamaContainers_one_call as (b3 & E3 & Hb3 & Hx3).
  destruct _buildGraphs_one_call as (b4 & E4 & Hb4 & Hx4).
  unfold render. rewrite E2, E3, E4. intros Hn.
  apply bind_normal_inv in Hn as Hi.
  destruct Hi as ([] & w1 & H1 & R1). rewrite R1 in *. clear R1.
  apply bind_normal_inv in Hn as Hi.
  destruct Hi as ([] & w2 & H2 & R2). rewrite R2 in *. clear R2.
  apply bind_normal_inv in Hn as Hi.
  destruct Hi as ([] & w3 & H3 & R3). rewrite R3 in *. clear R3.
  apply bind_normal_inv in Hn as Hi.
  destruct Hi as ([] & w4 & H4 & R4). rewrite R4 in *. clear R4.
  apply bind_normal_inv in Hn as Hi.
  destruct Hi as ([] & w5 & H5 & R5). rewrite R5 in *. clear R5.
  apply bind_normal_inv in Hn as Hi.
  destruct Hi as ([] & w6 & H6 & R6). rewrite R6 in *. clear R6.
  destruct (forEach_complete 2 b2 w4 Hb2) as (m & l2 & Hm & C5 & T5 & L2 & A2);
    [by rewrite H5|].
  destruct (forEach_complete 3 b3 w5 Hb3) as (m3 & l3 & _ & C6 & T6 & L3 & A3);
    [by rewrite H6|].
  destruct (forEach_complete 4 b4 w6 Hb4) as (m4 & l4 & _ & C7 & T7 & L4 & A4);
    [done|].
  rewrite H5 in C5, T5. rewrite H6 in C6, T6. simpl in C5, T5, C6, T6.
  rewrite (A3 Hx3) in L3. rewrite (A4 Hx4) in L4.
  pose proof (onSectionList_trace fetchNarration w1) as T2.
  pose proof (onSectionList_trace fetchDataAndProcessResults w3) as T4.
  rewrite H2 in T2. rewrite H4 in T4. simpl in T2, T4.
  assert (trace w1 = (trace w ++ [FetchNarration])%list) as T1
    by (by injection H1 as <-).
  assert (trace w3 = (trace w2 ++ [FetchDataAndProcessResults])%list) as T3
    by (by injection H3 as <-).
  exists m,
    ([FetchNarration; FetchDataAndProcessResults] ++ l2 ++ l3 ++ l4)%list.
  rewrite C7, C6, C5. repeat split.
  - done.
  - rewrite T7, T6, T5, T4, T3, T2, T1. by rewrite <- !app_assoc.
  - unfold phases_per_section. rewrite !fmap_app, L2, L3, L4.
    by rewrite C6, C5.
  - intros Hne. apply A2, Hx2, Hne.
Qed.
(** What [_buildScrollamaContainers] leaves in each section object: the
    configured instance, whose handlers close over that section. *)
Lemma _buildScrollamaContainers_attaches (w : World)
    (l : list SectionConfig) :
  sectionList w = Some l →
  fst (_buildScrollamaContainers w) = Normal tt →
  ∃ l', sectionList (snd (_buildScrollamaContainers w)) = Some l'
    ∧ length l' = length l
    ∧ ∀ i s, l !! i = Some s →
        ∃ names classes,
          cssNames s = Some names
          ∧ CSSNames.css names = Some classes
          ∧ l' !! i = Some (attached i s names classes).
Proof.
  unfold _buildScrollamaContainers, forEach. intros Hl. rewrite Hl.
  set (body := λ i : SectionRef, _).
  assert (∀ count i w0 l0,
    sectionList w0 = Some l0 → i + count = length l0 →
    fst (forEach_from body i count w0) = Normal tt →
    ∃ l', sectionList (snd (forEach_from body i count w0)) = Some l'
      ∧ length l' = length l0
      ∧ (∀ j, (j < i)%nat → l' !! j = l0 !! j)
      ∧ ∀ j s, (i ≤ j)%nat → l0 !! j = Some s →
          ∃ names classes,
            cssNames s = Some names
            ∧ CSSNames.css names = Some classes
            ∧ l' !! j = Some (attached j s names classes)) as Hloop.
  { clear w l Hl. intros count.
    induction count as [|count IH]; intros i w0 l0 Hl0 Hlen Hn.
    - exists l0. simpl. repeat split; [done..|].
      intros j s Hij Hj. apply lookup_lt_Some in Hj. lia.
    - simpl in Hn |- *. unfold mbind, M_bind in Hn |- *.
      destruct (body i w0) as [[r|e] w1] eqn:Hb; [|done].
      assert (∃ s names classes,
                l0 !! i = Some s ∧ cssNames s = Some names
                ∧ CSSNames.css names = Some classes ∧ r = Continue
                ∧ sectionList w1
                  = Some (<[i := attached i s names classes]> l0))
        as (s & names & classes & Hi & Hnames & Hcss & -> & Hw1).
      { revert Hb. unfold body. run.
        destruct (option_bind _ _ _ _) as [s|] eqn:Hi; simpl; try done.
        rewrite Hl0 in Hi. change (l0 !! i = Some s) in Hi.
        destruct (cssNames s) as [names|] eqn:Hnames; simpl; try done.
        destruct (CSSNames.css names) as [classes|] eqn:Hcss; simpl; try done.
        intros Heq. injection Heq as <- <-. exists s, names, classes.
        rewrite Hl0.
        repeat split; [done..|]. simpl. f_equal.
        apply list_eq. intros j. destruct (decide (i = j)) as [<-|Hne].
        - rewrite !list_lookup_alter_eq, Hi. simpl.
          by rewrite list_lookup_insert_eq by (by eapply lookup_lt_Some).
        - by rewrite !list_lookup_alter_ne, list_lookup_insert_ne. }
      destruct (IH (S i) w1 _ Hw1) as (l' & Hl' & Hlen' & Hbelow & Habove).
      { rewrite length_insert. lia. }
      { done. }
      exists l'. rewrite length_insert in Hlen'. repeat split; [done..| |].
      + intros j Hj. rewrite Hbelow by lia.
        by rewrite list_lookup_insert_ne by lia.
      + intros j s' Hij Hj. destruct (decide (i = j)) as [<-|Hne].
        * rewrite Hi in Hj. injection Hj as <-.
          exists names, classes. repeat split; [done..|].
          rewrite Hbelow by lia.
          by rewrite list_lookup_insert_eq by (by eapply lookup_lt_Some).
        * apply (Habove j s'); [lia|].
          by rewrite list_lookup_insert_ne. }
  intros Hn.
  destruct (Hloop (length l) 0 w l Hl eq_refl Hn)
    as (l' & Hl' & Hlen & _ & Hall).
  exists l'. repeat split; [done..|].
  intros i s Hi. apply (Hall i s); [lia|done].
Qed.
End RenderFacts.

(** The calls of a complete run over the one-section story. *)
Example render_story_trace :
  render (H:=story_collaborators) story_world
  = (Normal tt,
     mkWorld
       (Some [set_graph (Some 7)
                (set_scroller
                   (Some (mkScroller
                      (Some (mkSetup "#section_healthAndWealth .narration"
                               "#section_healthAndWealth"
                               "#graph_healthAndWealth" 0.5%float true))
                      (Some (section_handlers 0 story_section story_names))))
                   story_section)])
       ∅
       [FetchNarration; FetchDataAndProcessResults;
        BuildSectionWithNarration 0;
        ScrollamaSetup 0
          (mkSetup "#section_healthAndWealth .narration"
             "#section_healthAndWealth" "#graph_healthAndWealth"
             0.5%float true);
        BuildGraph 7 "graph_healthAndWealth" 0]).
Proof. vm_compute. reflexivity. Qed.

(** C1, as the claim states it, fails: in a run over the story the scroll
    observer is attached before the graph is built, so the trace is not in
    the order of the specification's sentence. *)
Lemma render_not_in_spec_order :
  ¬ in_order spec_phase
      (trace (snd (render (H:=story_collaborators) story_world))).
Proof.
  rewrite render_story_trace. unfold in_order. simpl. intros Hs.
  apply StronglySorted_app_1_elem_of with
    (l1 := [FetchNarration; FetchDataAndProcessResults;
            BuildSectionWithNarration 0;
            ScrollamaSetup 0
              (mkSetup "#section_healthAndWealth .narration"
                 "#section_healthAndWealth" "#graph_healthAndWealth"
                 0.5%float true)])
    (l2 := [BuildGraph 7 "graph_healthAndWealth" 0])
    (x1 := ScrollamaSetup 0
             (mkSetup "#section_healthAndWealth .narration"
                "#section_healthAndWealth" "#graph_healthAndWealth"
                0.5%float true))
    (x2 := BuildGraph 7 "graph_healthAndWealth" 0) in Hs.
  - simpl in Hs. lia.
  - set_solver.
  - set_solver.
Qed.

(** C1 (amended): whatever the configuration and whatever the collaborators
    do, [render] makes its calls in this order: narration is resolved for
    all sections, then data is resolved for all sections, then the DOM
    scaffolding is built section by section, then the scroll observer is
    attached section by section, and only then the graph is built section
    by section.  A run that completes has made both fetches, then one
    scaffolding call per section (up to the section whose scaffolding call
    ends the loop, if any does), then one scrollama setup per section, then
    one graph construction per section. *)
Theorem render_phases_in_code_order `{Collaborators} (w : World) :
  (∃ l, trace (snd (render w)) = (trace w ++ l)%list ∧ in_order phase l)
  ∧ (fst (render w) = Normal tt →
     ∃ m l, (m ≤ count_sections (snd (render w)))%nat
       ∧ trace (snd (render w)) = (trace w ++ l)%list
       ∧ tag <$> l = phases_per_section m (count_sections (snd (render w)))
       ∧ ((∀ s, fst (buildSectionWithNarration s) ≠ Normal ExitEarly) →
          m = count_sections (snd (render w)))).
Proof.
  split.
  - destruct (render_emits w) as (l & Ht & Hs & _). by exists l.
  - apply render_complete.
Qed.

Lemma render_phases_in_code_order_witness :
  ∃ m l, (m ≤ 1)%nat
    ∧ trace (snd (render (H:=story_collaborators) story_world)) = l
    ∧ tag <$> l = phases_per_section m 1
    ∧ ((∀ s,
          fst (buildSectionWithNarration (Collaborators:=story_collaborators)
                 s)
          ≠ Normal ExitEarly) → m = 1).
Proof.
  refine (proj2 (render_phases_in_code_order (H:=story_collaborators)
                   story_world) _).
  vm_compute. reflexivity.
Defined.

(** ** Construction *)

Lemma invalid_does_not_pass (config : Config)
    (sections : option (list SectionConfig)) :
  Invalid config sections → config_passes config sections = false.
Proof.
  intros Hinv. destruct (config_passes config sections) eqn:Hpass; [|done].
  exfalso. unfold config_passes in Hpass.
  destruct (config_appContainerId config) as [app|] eqn:Happ;
    [|by destruct sections].
  destruct sections as [l|]; [|done].
  apply andb_prop in Hpass as [Hreq Hnodup].
  apply bool_decide_eq_true in Hnodup.
  rewrite forallb_forall in Hreq.
  inversion Hinv as [? Hmiss| |? s Hin Hmiss|? s Hin Hmiss
                     |? i j si sj Hij Hi Hj Hsame]; subst.
  - congruence.
  - apply list_elem_of_In, Hreq in Hin. unfold has_required_fields in Hin.
    apply andb_prop in Hin as [Hid _]. apply bool_decide_eq_true in Hid.
    rewrite Hmiss in Hid. by destruct Hid.
  - apply list_elem_of_In, Hreq in Hin. unfold has_required_fields in Hin.
    apply andb_prop in Hin as [_ Hnar]. apply bool_decide_eq_true in Hnar.
    rewrite Hmiss in Hnar. by destruct Hnar.
  - apply Hij.
    apply (NoDup_lookup (sectionIdentifier <$> l) i j (sectionIdentifier si));
      [done| |].
    + by rewrite list_lookup_fmap, Hi.
    + by rewrite list_lookup_fmap, Hj, Hsame.
Qed.

(** C7: constructing the orchestrator from an invalid configuration (a
    required field is missing, or two sections share their identifier)
    throws [ConfigValidationError] at once: the world is exactly as before,
    so no section object was written and no fetch was started. *)
Theorem invalid_config_is_rejected `{Collaborators}
    (config : Config) (w : World) :
  Invalid config (sectionList w) →
  constructor config w = (Throw ConfigValidationError, w).
Proof.
  intros Hinv. unfold constructor, mbind, M_bind, validateScrollyTellerConfig.
  by rewrite (invalid_does_not_pass config (sectionList w) Hinv).
Qed.

Lemma invalid_config_is_rejected_witness :
  constructor (H:=story_collaborators) story_config twin_world
  = (Throw ConfigValidationError, twin_world).
Proof.
  apply (invalid_config_is_rejected (H:=story_collaborators)).
  apply (duplicate_sectionIdentifier story_config
           [story_section; story_section] 0 1 story_section story_section).
  - lia.
  - reflexivity.
  - reflexivity.
  - reflexivity.
Defined.

(** ** The demo callbacks *)

(** C5: whenever the demo's scroll callback reaches the graph it calls
    [graph.render] with [duration = 100], and whenever the activation
    callback reaches the graph it calls [graph.render] with
    [duration = 1000]; the scroll callback does so when [yearProgress] is
    truthy, the activation callback always does, once. *)
Theorem render_duration_by_event `{Builtins} (params : DemoParams) :
  (∀ g y d, GraphRender g y d ∈ fst (onScroll params) → d = 100%float)
  ∧ (∀ g y d,
       GraphRender g y d ∈ fst (onActivateNarration params) → d = 1000%float)
  ∧ (∀ state section data g,
       params_state params = Some state →
       params_sectionConfig params = Some section →
       demo_data section = Some data →
       demo_graph section = Some g →
       truthy (property state "yearProgress") = true →
       onScroll params
       = ([GraphRender g
             (Math_floor
                (yearProgressScale data (property state "yearProgress")))
             100%float],
          Normal tt))
  ∧ (∀ state section g,
       params_state params = Some state →
       params_sectionConfig params = Some section →
       demo_graph section = Some g →
       ∃ page,
         onActivateNarration params
         = ((page ++ [GraphRender g (Number (property state "year"))
                        1000%float])%list,
            Normal tt)
         ∧ ∀ g' y d, GraphRender g' y d ∉ page).
Proof.
  split; [|split; [|split]].
  - intros g y d. unfold onScroll.
    destruct (params_state params) as [state|]; [|by intros ?%elem_of_nil].
    destruct (params_sectionConfig params) as [section|];
      [|by intros ?%elem_of_nil].
    destruct (demo_data section) as [data|]; [|by intros ?%elem_of_nil].
    destruct (truthy _); [|by intros ?%elem_of_nil].
    destruct (demo_graph section) as [g0|]; [|by intros ?%elem_of_nil].
    simpl. intros Hin%list_elem_of_singleton. congruence.
  - intros g y d. unfold onActivateNarration.
    destruct (params_state params) as [state|]; [|by intros ?%elem_of_nil].
    destruct (params_sectionConfig params) as [section|];
      [|by intros ?%elem_of_nil].
    destruct (demo_graph section) as [g0|]; simpl.
    + rewrite !elem_of_cons, elem_of_nil. intros [?|[?|[?|[?|[]]]]]; congruence.
    + rewrite !elem_of_cons, elem_of_nil. intros [?|[?|[?|[]]]]; congruence.
  - intros state section data g Hst Hsec Hdata Hg Htruthy.
    unfold onScroll. by rewrite Hst, Hsec, Hdata, Htruthy, Hg.
  - intros state section g Hst Hsec Hg.
    unfold onActivateNarration. rewrite Hst, Hsec, Hg.
    eexists. split; [reflexivity|].
    intros g' y d. rewrite !elem_of_cons, elem_of_nil.
    intros [?|[?|[?|[]]]]; congruence.
Qed.

Lemma render_duration_by_event_witness :
  onScroll (H:=story_builtins) scroll_params
  = ([GraphRender 7 1979%float 100%float], Normal tt)
  ∧ ∃ page,
      onActivateNarration (H:=story_builtins) activate_params
      = ((page ++ [GraphRender 7 1962%float 1000%float])%list, Normal tt)
      ∧ ∀ g' y d, GraphRender g' y d ∉ page.
Proof.
  split.
  - refine (proj1 (proj2 (proj2
              (render_duration_by_event (H:=story_builtins) scroll_params)))
              {[ "yearProgress" := VNumber 0.5%float ]} story_demo_section
              story_data 7 _ _ _ _ _); reflexivity.
  - refine (proj2 (proj2 (proj2
              (render_duration_by_event (H:=story_builtins) activate_params)))
              {[ "year" := VString "1962"; "snippet" := VString "intro" ]}
              story_demo_section 7 _ _ _); reflexivity.
Defined.

(** An argument object without [state]: destructuring the parameter throws
    and the graph is not reached. *)
Example onScroll_without_state :
  onScroll (H:=story_builtins)
    (mkDemoParams (Some "graph_healthAndWealth") None
       (Some story_demo_section) None)
  = ([], Throw TypeError).
Proof. reflexivity. Qed.

(** C9: on a resize of the graph container the demo calls the graph
    handle's [resize] once, with the container element's [offsetWidth] and
    [offsetHeight] each multiplied by 0.9. *)
Theorem resize_takes_ninety_percent (params : DemoParams)
    (section : DemoSection) (g : GraphHandle) (graphElement : GraphElement) :
  params_sectionConfig params = Some section →
  demo_graph section = Some g →
  params_graphElement params = Some graphElement →
  onResize params
  = ([GraphResize g (offsetWidth graphElement * 0.9)%float
                    (offsetHeight graphElement * 0.9)%float],
     Normal tt).
Proof.
  intros Hsec Hg Hel. unfold onResize. by rewrite Hsec, Hg, Hel.
Qed.

Lemma resize_takes_ninety_percent_witness :
  onResize resize_params = ([GraphResize 7 900%float 450%float], Normal tt).
Proof.
  exact (resize_takes_ninety_percent resize_params story_demo_section 7
           (mkGraphElement 1000%float 500%float) eq_refl eq_refl eq_refl).
Defined.

(** ** Trigger decomposition *)

Lemma assign_pair_lookup (acc : gmap string string) (tok key : string) :
  assign_pair acc tok !! key
  = from_option Some (acc !! key) (value_for key tok).
Proof.
  unfold assign_pair, value_for.
  destruct (split_first ":"%char tok) as [[k v]|]; simpl; [|done].
  destruct (decide (trim k = key)) as [->|Hne]; simpl.
  - by rewrite lookup_insert_eq.
  - by rewrite lookup_insert_ne.
Qed.

(** The value under a key after all assignments is the one assigned last,
    or the earlier value when no token assigns the key. *)
Lemma foldl_assign_pair_lookup (toks : list string)
    (acc : gmap string string) (key : string) :
  foldl assign_pair acc toks !! key
  = from_option Some (acc !! key) (last (omap (value_for key) toks)).
Proof.
  revert acc. induction toks as [|tok toks IH]; intros acc; [done|].
  change (foldl assign_pair acc (tok :: toks))
    with (foldl assign_pair (assign_pair acc tok) toks).
  assert (omap (value_for key) (tok :: toks)
          = match value_for key tok with
            | Some v => v :: omap (value_for key) toks
            | None => omap (value_for key) toks
            end) as -> by reflexivity.
  rewrite IH, assign_pair_lookup.
  destruct (value_for key tok) as [v|]; [|done].
  destruct (omap (value_for key) toks) as [|v' l]; [done|].
  rewrite last_cons_cons.
  destruct (last_is_Some (v' :: l)) as [_ [x ->]]; done.
Qed.

(** C6: with decomposition enabled, a row's state is the decomposition of
    its trigger: the trigger is cut into tokens, each token with a delimiter
    is cut into a key and a value, and the pairs are assigned in order, so a
    key holds the value of the last token that assigns it; a token without
    the delimiter changes nothing.  The two examples of the specification
    come out as stated. *)
Theorem trigger_decomposition (trig : string) :
  decomposeTrigger "year:1962 snippet:intro"
  = {[ "year" := "1962"; "snippet" := "intro" ]}
  ∧ decomposeTrigger "malformed" = ∅
  ∧ (∀ row : NarrationEntry,
       narration_state true row
       = Some (decomposeTrigger (default "" (row !! "trigger"))))
  ∧ (∀ key,
       decomposeTrigger trig !! key
       = last (omap (value_for key) (split_on " "%char trig)))
  ∧ (∀ (toks1 toks2 : list string) (tok : string),
       split_first ":"%char tok = None →
       foldl assign_pair ∅ (toks1 ++ tok :: toks2)%list
       = foldl assign_pair ∅ (toks1 ++ toks2)%list).
Proof.
  split; [|split; [|split; [|split]]].
  - vm_compute. reflexivity.
  - reflexivity.
  - reflexivity.
  - intros key. unfold decomposeTrigger.
    rewrite foldl_assign_pair_lookup, lookup_empty.
    by destruct (last _).
  - intros toks1 toks2 tok Hnone.
    rewrite !foldl_app. simpl. unfold assign_pair at 2. by rewrite Hnone.
Qed.

(** A later pair overwrites an earlier one and a token without a colon
    leaves no trace. *)
Example decomposeTrigger_last_write_wins :
  decomposeTrigger "year:1950 malformed year:2008" = {[ "year" := "2008" ]}.
Proof. vm_compute. reflexivity. Qed.

Lemma trigger_decomposition_witness :
  decomposeTrigger "year:1950 malformed year:2008" !! "year"
  = last (omap (value_for "year")
            (split_on " "%char "year:1950 malformed year:2008"))
  ∧ foldl assign_pair ∅ (["year:1950"] ++ "malformed" :: ["year:2008"])%list
    = foldl assign_pair ∅ (["year:1950"] ++ ["year:2008"])%list.
Proof.
  destruct (trigger_decomposition "year:1950 malformed year:2008")
    as (_ & _ & _ & Hlast & Hdrop).
  split.
  - apply Hlast.
  - apply Hdrop. reflexivity.
Defined.

(** * Further properties of the orchestrator and of the demo section *)

(** ** Loops section by section *)

Section LoopFacts.
Context `{Collaborators}.

Ltac run :=
  cbv beta iota zeta delta
    [mbind M_bind mret M_ret mthrow M_throw emit lift getSection
     modifySection onSection onSectionList fst snd] in *.

Lemma forEach_from_run_sections (body : SectionRef → M IterateeResult)
    (f : SectionStep) :
  acts_per_section body f →
  ∀ todo visited w,
    sectionList w = Some (visited ++ todo)%list →
    forEach_from body (length visited) (length todo) w
    = let '(r, todo', es) := run_sections f (length visited) todo in
      (r, mkWorld (Some (visited ++ todo')%list) (active w)
            (trace w ++ es)%list).
Proof.
  intros Hbody todo. induction todo as [|s rest IH]; intros visited w Hw.
  - simpl. rewrite !app_nil_r in *. destruct w; simpl in *. by subst.
  - simpl. unfold mbind, M_bind.
    rewrite (Hbody (length visited) w (visited ++ s :: rest)%list s Hw)
      by (by rewrite list_lookup_middle).
    destruct (f (length visited) s) as [[r s'] es].
    replace (<[length visited := s']> (visited ++ s :: rest)%list)
      with ((visited ++ [s']) ++ rest)%list
      by (rewrite <- (Nat.add_0_r (length visited)), insert_app_r;
          by rewrite <- app_assoc).
    destruct r as [[|]|e].
    + specialize (IH (visited ++ [s'])%list
                     (mkWorld (Some ((visited ++ [s']) ++ rest)%list)
                        (active w) (trace w ++ es)%list) eq_refl).
      rewrite length_app, Nat.add_1_r in IH. rewrite IH.
      destruct (run_sections f (S (length visited)) rest) as [[r' rest'] es'].
      simpl. by rewrite <- !app_assoc.
    + simpl. by rewrite <- !app_assoc.
    + simpl. by rewrite <- !app_assoc.
Qed.

(** A loop whose body acts section by section is the run of its turns. *)
Lemma forEach_run_sections (body : SectionRef → M IterateeResult)
    (f : SectionStep) (w : World) (l : list SectionConfig) :
  acts_per_section body f →
  sectionList w = Some l →
  forEach body w
  = let '(r, l', es) := run_sections f 0 l in
    (r, mkWorld (Some l') (active w) (trace w ++ es)%list).
Proof.
  intros Hbody Hl. unfold forEach. rewrite Hl.
  apply (forEach_from_run_sections body f Hbody l [] w Hl).
Qed.

Lemma alter_is_insert (f : SectionConfig → SectionConfig) (i : nat)
    (l : list SectionConfig) (s : SectionConfig) :
  l !! i = Some s → alter f i l = <[i := f s]> l.
Proof.
  intros Hi. apply list_eq. intros j. destruct (decide (i = j)) as [<-|Hne].
  - rewrite list_lookup_alter_eq, Hi.
    by rewrite list_lookup_insert_eq by (by eapply lookup_lt_Some).
  - by rewrite list_lookup_alter_ne, list_lookup_insert_ne.
Qed.

Ltac at_section Hl Hi :=
  run; unfold SectionRef in *;
  repeat (progress (rewrite ?Hl, ?Hi; simpl)).

(** Two lists of sections that differ from [l] at position [i] only. *)
Ltac same_sections i Hi :=
  apply list_eq; intros ?j; destruct (decide (i = j)) as [<-|?];
  [ rewrite ?list_lookup_alter_eq, ?list_lookup_insert_eq, ?Hi
      by (rewrite ?length_alter; by eapply lookup_lt_Some)
  | rewrite ?list_lookup_alter_ne, ?list_lookup_insert_ne by done ];
  done.

Ltac same_world i Hi :=
  try match goal with
      | |- (_, ?w) = (_, mkWorld _ _ _) =>
          is_var w; destruct w; simpl in *; subst
      end;
  repeat match goal with
         | Hl : sectionList _ = Some _ |- _ => progress (rewrite ?Hl; simpl)
         end;
  f_equal; f_equal;
  first [by rewrite ?app_nil_r | f_equal; same_sections i Hi].

Lemma _assignConfigVariablesToSectionConfigs_steps (this : ScrollyTeller) :
  ∃ body, _assignConfigVariablesToSectionConfigs this = forEach body
    ∧ acts_per_section body (λ _ s, (Normal Continue, assigned this s, [])).
Proof.
  eexists. split; [reflexivity|]. intros i w l s Hl Hi.
  at_section Hl Hi. same_world i Hi.
Qed.

Lemma _buildScrollamaContainers_steps :
  ∃ body, _buildScrollamaContainers = forEach body
    ∧ acts_per_section body attach_step.
Proof.
  eexists. split; [reflexivity|]. intros i w l s Hl Hi.
  at_section Hl Hi. unfold attach_step.
  destruct (cssNames s) as [names|]; simpl.
  - destruct (CSSNames.css names) as [classes|]; simpl; same_world i Hi.
  - same_world i Hi.
Qed.

Lemma _buildGraphs_steps :
  ∃ body, _buildGraphs = forEach body ∧ acts_per_section body graph_step.
Proof.
  eexists. split; [reflexivity|]. intros i w l s Hl Hi.
  at_section Hl Hi. unfold graph_step.
  destruct (_graphIdForSection s) as [gid|e]; simpl.
  - destruct (buildGraphFunction s) as [f|]; simpl.
    + run. simpl. destruct (callBuildGraph f gid s) as [g|e]; simpl.
      * same_world i Hi.
      * same_world i Hi.
    + same_world i Hi.
  - same_world i Hi.
Qed.

Lemma _buildSections_steps :
  ∃ body, _buildSections = forEach body ∧ acts_per_section body scaffold_step.
Proof.
  eexists. split; [reflexivity|]. intros i w l s Hl Hi.
  at_section Hl Hi. unfold scaffold_step.
  destruct (buildSectionWithNarration s) as [r s']. simpl.
  destruct r; same_world i Hi.
Qed.

(** *** Runs of turns *)

Lemma run_sections_continue (f : SectionStep) (todo : list SectionConfig)
    (i : nat) :
  (∀ j s, todo !! j = Some s → fst (fst (f (i + j) s)) = Normal Continue) →
  run_sections f i todo
  = (Normal tt,
     imap (λ j s, snd (fst (f (i + j) s))) todo,
     mjoin (imap (λ j s, snd (f (i + j) s)) todo)).
Proof.
  revert i. induction todo as [|s rest IH]; intros i Hall; [done|].
  simpl. pose proof (Hall 0 s eq_refl) as H0. rewrite Nat.add_0_r in *.
  destruct (f i s) as [[r s'] es]. simpl in H0. subst r.
  rewrite (IH (S i)).
  - simpl. f_equal; [f_equal; f_equal|f_equal; f_equal];
      apply imap_ext; intros j x _; simpl; by rewrite Nat.add_succ_r.
  - intros j x Hj. rewrite Nat.add_succ_l, <- Nat.add_succ_r.
    by apply (Hall (S j)).
Qed.

Lemma run_sections_normal_inv (f : SectionStep) (todo : list SectionConfig)
    (i : nat) :
  (∀ j s, fst (fst (f j s)) ≠ Normal ExitEarly) →
  fst (fst (run_sections f i todo)) = Normal tt →
  ∀ j s, todo !! j = Some s → fst (fst (f (i + j) s)) = Normal Continue.
Proof.
  intros Hne. revert i. induction todo as [|s rest IH]; intros i Hn j x Hj;
    [done|].
  simpl in Hn. pose proof (Hne i s) as Hx.
  destruct (f i s) as [[r s'] es] eqn:Hf. simpl in Hx.
  destruct r as [[|]|e]; [|done..].
  destruct j as [|j].
  - injection Hj as <-. by rewrite Nat.add_0_r, Hf.
  - rewrite <- Nat.add_succ_comm. apply (IH (S i)); [|done].
    by destruct (run_sections f (S i) rest) as [[r' rest'] es'].
Qed.

Lemma run_sections_throw (f : SectionStep)
    (l1 l2 : list SectionConfig) (s : SectionConfig) (i : nat) (e : JSError) :
  (∀ j s1, l1 !! j = Some s1 → fst (fst (f (i + j) s1)) = Normal Continue) →
  fst (fst (f (i + length l1) s)) = Throw e →
  run_sections f i (l1 ++ s :: l2)
  = (Throw e,
     (imap (λ j s1, snd (fst (f (i + j) s1))) l1
      ++ snd (fst (f (i + length l1) s)) :: l2)%list,
     (mjoin (imap (λ j s1, snd (f (i + j) s1)) l1)
      ++ snd (f (i + length l1) s))%list).
Proof.
  revert i. induction l1 as [|s1 l1 IH]; intros i Hall Hthrow.
  - simpl in *. rewrite Nat.add_0_r in *.
    destruct (f i s) as [[r s'] es]. simpl in *. by subst r.
  - simpl. pose proof (Hall 0 s1 eq_refl) as H0. rewrite Nat.add_0_r in *.
    destruct (f i s1) as [[r s1'] es1]. simpl in H0. subst r.
    rewrite (IH (S i)).
    + simpl. rewrite <- !Nat.add_succ_comm. simpl.
      rewrite <- app_assoc.
      f_equal; [f_equal; f_equal; f_equal|f_equal; f_equal; f_equal];
        apply imap_ext; intros j x _; simpl; by rewrite Nat.add_succ_r.
    + intros j x Hj. rewrite Nat.add_succ_l, <- Nat.add_succ_r.
      by apply (Hall (S j)).
    + simpl in Hthrow. by rewrite Nat.add_succ_l, <- Nat.add_succ_r.
Qed.

Lemma _assignConfigVariablesToSectionConfigs_map (this : ScrollyTeller)
    (w : World) (l : list SectionConfig) :
  sectionList w = Some l →
  _assignConfigVariablesToSectionConfigs this w
  = (Normal tt, mkWorld (Some (assigned this <$> l)) (active w) (trace w)).
Proof.
  intros Hl.
  destruct (_assignConfigVariablesToSectionConfigs_steps this)
    as (body & -> & Hbody).
  rewrite (forEach_run_sections body _ w l Hbody Hl).
  rewrite run_sections_continue by done. cbv beta iota zeta.
  f_equal. f_equal.
  - f_equal. apply list_eq. intros j.
    by rewrite list_lookup_imap, list_lookup_fmap.
  - rewrite <- (app_nil_r (trace w)) at 2. f_equal.
    clear. generalize 0. induction l as [|x l IH]; intros n; [done|].
    rewrite imap_cons. simpl. apply (IH (S n)).
Qed.
End LoopFacts.


(** X1: [_assignConfigVariablesToSectionConfigs] always completes and makes
    no call; it writes four fields of every section and nothing else:
    [showSpacers] and [useDefaultGraphCSS] become [true] when they were
    undefined and keep a value the user gave, [appContainerId] and
    [cssNames] are overwritten with the instance's. *)
Theorem assign_config_variables_sets_defaults
    (this : ScrollyTeller) (w : World) (l : list SectionConfig) :
  sectionList w = Some l →
  ∃ l',
    _assignConfigVariablesToSectionConfigs this w
    = (Normal tt, mkWorld (Some l') (active w) (trace w))
    ∧ length l' = length l
    ∧ ∀ i s, l !! i = Some s →
        ∃ s', l' !! i = Some s'
          ∧ showSpacers s' = Some (default true (showSpacers s))
          ∧ useDefaultGraphCSS s'
            = Some (default true (useDefaultGraphCSS s))
          ∧ appContainerId s' = this_appContainerId this
          ∧ cssNames s' = Some (this_cssNames this)
          ∧ sectionIdentifier s' = sectionIdentifier s
          ∧ narration s' = narration s
          ∧ data s' = data s
          ∧ buildGraphFunction s' = buildGraphFunction s
          ∧ onScrollFunction s' = onScrollFunction s
          ∧ onActivateNarrationFunction s' = onActivateNarrationFunction s
          ∧ graph s' = graph s
          ∧ scroller s' = scroller s.
Proof.
  intros Hl. exists (assigned this <$> l).
  split; [by apply _assignConfigVariablesToSectionConfigs_map|].
  split; [by rewrite length_fmap|].
  intros i s Hi. exists (assigned this s).
  by rewrite list_lookup_fmap, Hi.
Qed.

(** X2: assigning the configuration variables twice, for whichever two
    instances, leaves the sections as the second assignment alone does: the
    defaults are stable and the later instance's container id and names
    win. *)
Theorem assign_config_variables_last_wins
    (this1 this2 : ScrollyTeller) (w : World) :
  (_assignConfigVariablesToSectionConfigs this1;;
   _assignConfigVariablesToSectionConfigs this2) w
  = _assignConfigVariablesToSectionConfigs this2 w.
Proof.
  unfold mbind, M_bind.
  destruct (sectionList w) as [l|] eqn:Hl.
  - rewrite (_assignConfigVariablesToSectionConfigs_map this1 w l Hl).
    rewrite (_assignConfigVariablesToSectionConfigs_map this2 w l Hl).
    rewrite (_assignConfigVariablesToSectionConfigs_map this2
               (mkWorld (Some (assigned this1 <$> l)) (active w) (trace w))
               (assigned this1 <$> l) eq_refl).
    simpl. by rewrite <- list_fmap_compose.
  - unfold _assignConfigVariablesToSectionConfigs, forEach. rewrite Hl.
    simpl. by rewrite Hl.
Qed.

(** X3: when validation passes, the constructor returns an instance whose
    [cssNames] is the configuration's object if that object's constructor
    is named [CSSNames] and a fresh default object otherwise, and every
    section ends up with that same object and the configuration's container
    id; nothing is called and no flag changes. *)
Theorem constructor_shares_one_cssNames `{Collaborators}
    (config : Config) (w : World) (l : list SectionConfig) :
  validateScrollyTellerConfig config w = (Normal tt, w) →
  sectionList w = Some l →
  ∃ this l',
    constructor config w
    = (Normal this, mkWorld (Some l') (active w) (trace w))
    ∧ this_appContainerId this = config_appContainerId config
    ∧ this_cssNames this
      = match config_cssNames config with
        | Some (constructor_name, object) =>
            if decide (constructor_name = "CSSNames")
            then object else defaultCSSNames
        | None => defaultCSSNames
        end
    ∧ length l' = length l
    ∧ Forall (λ s', cssNames s' = Some (this_cssNames this)
                    ∧ appContainerId s' = config_appContainerId config) l'.
Proof.
  intros Hvalid Hl. unfold constructor, mbind, M_bind. rewrite Hvalid.
  set (this := mkScrollyTeller _ _).
  rewrite (_assignConfigVariablesToSectionConfigs_map this w l Hl).
  exists this, (assigned this <$> l). repeat split.
  - subst this. simpl. destruct (config_cssNames config) as [[name obj]|];
      [|done].
    by destruct (decide (name ≠ "CSSNames")), (decide (name = "CSSNames")).
  - by rewrite length_fmap.
  - apply Forall_fmap, Forall_forall. by intros s _.
Qed.

Lemma mjoin_imap_singletons {A} (F : nat → A → list Effect)
    (E : nat → A → Effect) (l : list A) :
  (∀ j x, l !! j = Some x → F j x = [E j x]) →
  mjoin (imap F l) = imap E l.
Proof.
  revert F E. induction l as [|x l IH]; intros F E Hall; [done|].
  rewrite !imap_cons. simpl. rewrite (Hall 0 x eq_refl). simpl. f_equal.
  apply IH. intros j y Hj. apply (Hall (S j) y Hj).
Qed.

Lemma attach_step_continue (i : nat) (s : SectionConfig) :
  is_Some (cssNames s ≫= CSSNames.css) →
  ∃ names classes,
    cssNames s = Some names ∧ CSSNames.css names = Some classes
    ∧ attach_step i s
      = (Normal Continue, attached i s names classes,
         [ScrollamaSetup i (setup_options s names classes)]).
Proof.
  intros [classes Hc]. unfold attach_step.
  destruct (cssNames s) as [names|]; [|done]. simpl in Hc.
  exists names, classes. by rewrite Hc.
Qed.

Lemma tag_imap {A} (k : nat) (E : nat → A → Effect) (l : list A) (i : nat) :
  (∀ j x, tag (E j x) = (k, Some j)) →
  tag <$> imap (λ j, E (i + j)) l = (λ j, (k, Some j)) <$> seq i (length l).
Proof.
  intros HE. revert i. induction l as [|x l IH]; intros i; [done|].
  change (seq i (length (x :: l))) with (i :: seq (S i) (length l)).
  rewrite imap_cons, !fmap_cons, Nat.add_0_r, HE. f_equal.
  rewrite <- (IH (S i)). f_equal. apply imap_ext. intros j y _. simpl.
  by rewrite Nat.add_succ_r.
Qed.

(** X5: [_buildScrollamaContainers] stops with a [TypeError] at the first
    section whose [cssNames.css] is missing.  That section is left with a
    scrollama instance that was created but never set up, the sections
    before it are fully attached (one setup call each), and the sections
    after it are untouched. *)
Theorem attach_stops_at_first_section_without_css
    (w : World) (l1 l2 : list SectionConfig) (s : SectionConfig) :
  sectionList w = Some (l1 ++ s :: l2)%list →
  Forall (λ s1, is_Some (cssNames s1 ≫= CSSNames.css)) l1 →
  cssNames s ≫= CSSNames.css = None →
  ∃ l1' es,
    _buildScrollamaContainers w
    = (Throw TypeError,
       mkWorld
         (Some (l1' ++ set_scroller (Some (mkScroller None None)) s :: l2)%list)
         (active w) (trace w ++ es)%list)
    ∧ length l1' = length l1
    ∧ tag <$> es = (λ j, (3, Some j)) <$> seq 0 (length l1)
    ∧ ∀ j s1, l1 !! j = Some s1 →
        ∃ names classes,
          cssNames s1 = Some names ∧ CSSNames.css names = Some classes
          ∧ l1' !! j = Some (attached j s1 names classes).
Proof.
  intros Hl Hgood Hbad.
  destruct _buildScrollamaContainers_steps as (body & -> & Hbody).
  rewrite (forEach_run_sections body _ w _ Hbody Hl).
  assert (∀ j s1, l1 !! j = Some s1 →
            ∃ names classes,
              cssNames s1 = Some names ∧ CSSNames.css names = Some classes
              ∧ attach_step j s1
                = (Normal Continue, attached j s1 names classes,
                   [ScrollamaSetup j (setup_options s1 names classes)]))
    as Hok.
  { intros j s1 Hj. apply attach_step_continue.
    by apply (proj1 (Forall_lookup _ _) Hgood j s1). }
  assert (attach_step (length l1) s
          = (Throw TypeError, set_scroller (Some (mkScroller None None)) s, []))
    as Hstep.
  { unfold attach_step. destruct (cssNames s) as [names|]; [|done].
    simpl in Hbad. by rewrite Hbad. }
  rewrite (run_sections_throw attach_step l1 l2 s 0 TypeError).
  - simpl. rewrite Hstep. simpl.
    eexists _, _. split; [reflexivity|]. split; [by rewrite length_imap|].
    split.
    + rewrite app_nil_r.
      set (E := λ (j : nat) (s1 : SectionConfig),
             ScrollamaSetup j
               (match cssNames s1, cssNames s1 ≫= CSSNames.css with
                | Some names, Some classes => setup_options s1 names classes
                | _, _ => mkSetup "" "" "" 0%float false
                end)).
      rewrite (mjoin_imap_singletons _ E).
      * exact (tag_imap 3 E l1 0 (λ _ _, eq_refl)).
      * intros j s1 Hj.
        destruct (Hok j s1 Hj) as (names & classes & Hn & Hc & ->).
        unfold E. simpl. rewrite Hn. simpl. by rewrite Hc.
    + intros j s1 Hj.
      destruct (Hok j s1 Hj) as (names & classes & Hn & Hc & Hs).
      exists names, classes. repeat split; [done..|].
      rewrite list_lookup_imap. unfold SectionRef in *. rewrite Hj.
      simpl. by rewrite Hs.
  - intros j s1 Hj. simpl.
    by destruct (Hok j s1 Hj) as (names & classes & _ & _ & ->).
  - simpl. by rewrite Hstep.
Qed.

Lemma graph_step_never_exits `{Collaborators} (i : nat) (s : SectionConfig) :
  fst (fst (graph_step i s)) ≠ Normal ExitEarly.
Proof.
  unfold graph_step. destruct (_graphIdForSection s); [|done].
  destruct (buildGraphFunction s) as [f|]; [|done].
  by destruct (callBuildGraph f a s).
Qed.

Lemma graph_step_continue `{Collaborators} (i : nat) (s : SectionConfig) :
  fst (fst (graph_step i s)) = Normal Continue ↔
  ∃ names f g,
    cssNames s = Some names ∧ buildGraphFunction s = Some f
    ∧ callBuildGraph f (CSSNames.graphId names (sectionIdentifier s)) s
      = Normal g.
Proof.
  unfold graph_step, _graphIdForSection. split.
  - destruct (cssNames s) as [names|]; [|done].
    destruct (buildGraphFunction s) as [f|]; [|done].
    destruct (callBuildGraph f _ s) as [g|] eqn:Hg; [|done].
    intros _. by exists names, f, g.
  - intros (names & f & g & -> & -> & ->). done.
Qed.

Lemma graph_step_ok `{Collaborators} (i : nat) (s : SectionConfig)
    (names : CSSNames.t) (f : UserFn) (g : option GraphHandle) :
  cssNames s = Some names → buildGraphFunction s = Some f →
  callBuildGraph f (CSSNames.graphId names (sectionIdentifier s)) s
  = Normal g →
  graph_step i s
  = (Normal Continue, set_graph g s,
     [BuildGraph f (CSSNames.graphId names (sectionIdentifier s)) i]).
Proof.
  intros Hn Hf Hg. unfold graph_step, _graphIdForSection.
  by rewrite Hn, Hf, Hg.
Qed.

Lemma _buildGraphs_complete `{Collaborators}
    (w : World) (l : list SectionConfig) :
  sectionList w = Some l →
  fst (_buildGraphs w) = Normal tt →
  ∃ l' es,
    snd (_buildGraphs w)
    = mkWorld (Some l') (active w) (trace w ++ es)%list
    ∧ length l' = length l
    ∧ length es = length l
    ∧ ∀ i s, l !! i = Some s →
        ∃ names f g,
          cssNames s = Some names
          ∧ buildGraphFunction s = Some f
          ∧ callBuildGraph f (CSSNames.graphId names (sectionIdentifier s)) s
            = Normal g
          ∧ l' !! i = Some (set_graph g s)
          ∧ es !! i
            = Some (BuildGraph f
                      (CSSNames.graphId names (sectionIdentifier s)) i).
Proof.
  intros Hl. destruct _buildGraphs_steps as (body & -> & Hbody).
  rewrite (forEach_run_sections body _ w l Hbody Hl).
  destruct (run_sections graph_step 0 l) as [[r l'] es] eqn:Hrun.
  simpl. intros ->.
  pose proof (run_sections_normal_inv graph_step l 0 graph_step_never_exits)
    as Hinv.
  rewrite Hrun in Hinv. specialize (Hinv eq_refl).
  rewrite (run_sections_continue graph_step l 0 Hinv) in Hrun.
  injection Hrun as <- <-.
  rewrite (mjoin_imap_singletons _ build_call l).
  2:{ intros j s Hj.
      destruct (proj1 (graph_step_continue j s) (Hinv j s Hj))
        as (names & f & g & Hn & Hf & Hg).
      simpl. rewrite (graph_step_ok j s names f g Hn Hf Hg).
      unfold build_call. by rewrite Hn, Hf. }
  eexists _, _. split; [reflexivity|].
  split; [by rewrite length_imap|]. split; [by rewrite length_imap|].
  intros i s Hi.
  destruct (proj1 (graph_step_continue i s) (Hinv i s Hi))
    as (names & f & g & Hn & Hf & Hg).
  exists names, f, g. repeat split; [done..| |].
  - rewrite list_lookup_imap. unfold SectionRef in *. rewrite Hi. simpl.
    by rewrite (graph_step_ok i s names f g Hn Hf Hg).
  - rewrite list_lookup_imap. unfold SectionRef in *. rewrite Hi. simpl.
    unfold build_call. by rewrite Hn, Hf.
Qed.

Lemma build_graphs_throw `{Collaborators} (w : World)
    (l1 l2 : list SectionConfig) (s : SectionConfig) (e : JSError)
    (calls : list Effect) :
  sectionList w = Some (l1 ++ s :: l2)%list →
  Forall buildable l1 →
  graph_step (length l1) s = (Throw e, s, calls) →
  ∃ l1' es,
    _buildGraphs w
    = (Throw e,
       mkWorld (Some (l1' ++ s :: l2)%list) (active w)
         (trace w ++ es ++ calls)%list)
    ∧ length l1' = length l1
    ∧ tag <$> es = (λ j, (4, Some j)) <$> seq 0 (length l1)
    ∧ ∀ j s1, l1 !! j = Some s1 →
        ∃ names f g,
          callBuildGraph f (CSSNames.graphId names (sectionIdentifier s1)) s1
          = Normal g
          ∧ l1' !! j = Some (set_graph g s1).
Proof.
  intros Hl Hgood Hstep.
  destruct _buildGraphs_steps as (body & -> & Hbody).
  rewrite (forEach_run_sections body _ w _ Hbody Hl).
  assert (∀ j s1, l1 !! j = Some s1 →
            fst (fst (graph_step (0 + j) s1)) = Normal Continue) as Hcont.
  { intros j s1 Hj. apply graph_step_continue.
    by apply (proj1 (Forall_lookup _ _) Hgood j s1). }
  rewrite (run_sections_throw graph_step l1 l2 s 0 e Hcont)
    by (simpl; by rewrite Hstep).
  simpl. rewrite Hstep. simpl.
  rewrite (mjoin_imap_singletons _ build_call l1).
  2:{ intros j s1 Hj.
      destruct (proj1 (graph_step_continue j s1) (Hcont j s1 Hj))
        as (names & f & g & Hn & Hf & Hg).
      rewrite (graph_step_ok j s1 names f g Hn Hf Hg).
      unfold build_call. by rewrite Hn, Hf. }
  eexists _, _. split; [reflexivity|]. split; [by rewrite length_imap|].
  split.
  - apply (tag_imap 4 build_call l1 0). intros j x. unfold build_call.
    by destruct (cssNames x), (buildGraphFunction x).
  - intros j s1 Hj.
    destruct (proj1 (graph_step_continue j s1) (Hcont j s1 Hj))
      as (names & f & g & Hn & Hf & Hg).
    exists names, f, g. split; [done|].
    rewrite list_lookup_imap. unfold SectionRef in *. rewrite Hj. simpl.
    by rewrite (graph_step_ok j s1 names f g Hn Hf Hg).
Qed.

(** X7: [_buildGraphs] stops with a [TypeError] at the first section that
    has no [cssNames] or no [buildGraphFunction]: the sections before it
    keep the graphs just built (one builder call each), that section and
    the ones after it are untouched, and no builder is called for them. *)
Theorem build_graphs_stops_at_section_without_builder `{Collaborators}
    (w : World) (l1 l2 : list SectionConfig) (s : SectionConfig) :
  sectionList w = Some (l1 ++ s :: l2)%list →
  Forall buildable l1 →
  cssNames s = None ∨ buildGraphFunction s = None →
  ∃ l1' es,
    _buildGraphs w
    = (Throw TypeError,
       mkWorld (Some (l1' ++ s :: l2)%list) (active w) (trace w ++ es)%list)
    ∧ length l1' = length l1
    ∧ tag <$> es = (λ j, (4, Some j)) <$> seq 0 (length l1)
    ∧ ∀ j s1, l1 !! j = Some s1 →
        ∃ names f g,
          callBuildGraph f (CSSNames.graphId names (sectionIdentifier s1)) s1
          = Normal g
          ∧ l1' !! j = Some (set_graph g s1).
Proof.
  intros Hl Hgood Hbad.
  destruct (build_graphs_throw w l1 l2 s TypeError [] Hl Hgood)
    as (l1' & es & Hrun & Hrest).
  - unfold graph_step, _graphIdForSection.
    destruct Hbad as [-> | Hf]; [done|].
    destruct (cssNames s); [|done]. by rewrite Hf.
  - exists l1', es. by rewrite app_nil_r in Hrun.
Qed.

(** X8: an exception thrown by a section's [buildGraphFunction] leaves
    [_buildGraphs] as it is: the builder call is the last call made, the
    section's [graph] is not assigned, and the later sections are
    untouched. *)
Theorem build_graphs_passes_builder_exception_on `{Collaborators}
    (w : World) (l1 l2 : list SectionConfig) (s : SectionConfig)
    (names : CSSNames.t) (f : UserFn) (e : JSError) :
  sectionList w = Some (l1 ++ s :: l2)%list →
  Forall buildable l1 →
  cssNames s = Some names →
  buildGraphFunction s = Some f →
  callBuildGraph f (CSSNames.graphId names (sectionIdentifier s)) s
  = Throw e →
  ∃ l1' es,
    _buildGraphs w
    = (Throw e,
       mkWorld (Some (l1' ++ s :: l2)%list) (active w)
         (trace w ++ es
          ++ [BuildGraph f (CSSNames.graphId names (sectionIdentifier s))
                (length l1)])%list)
    ∧ length l1' = length l1
    ∧ tag <$> es = (λ j, (4, Some j)) <$> seq 0 (length l1).
Proof.
  intros Hl Hgood Hn Hf He.
  destruct (build_graphs_throw w l1 l2 s e
              [BuildGraph f (CSSNames.graphId names (sectionIdentifier s))
                 (length l1)] Hl Hgood)
    as (l1' & es & Hrun & Hlen & Htag & _).
  - unfold graph_step, _graphIdForSection. by rewrite Hn, Hf, He.
  - by exists l1', es.
Qed.

(** X9: when [_buildScrollamaContainers] and then [_buildGraphs] complete,
    as in [render], every section's builder was called with the section
    object that already carries its configured scroller, and with the graph
    id that the section's scroll handlers pass to the callbacks; the
    section ends up with that scroller and the graph the builder
    returned. *)
Theorem graph_builder_receives_attached_section `{Collaborators}
    (w : World) (l : list SectionConfig) :
  sectionList w = Some l →
  fst ((_buildScrollamaContainers;; _buildGraphs) w) = Normal tt →
  ∃ l',
    sectionList (snd ((_buildScrollamaContainers;; _buildGraphs) w)) = Some l'
    ∧ ∀ i s, l !! i = Some s →
        ∃ names classes f g,
          cssNames s = Some names
          ∧ CSSNames.css names = Some classes
          ∧ buildGraphFunction s = Some f
          ∧ callBuildGraph f (env_graphId (section_handlers i s names))
              (attached i s names classes)
            = Normal g
          ∧ l' !! i = Some (set_graph g (attached i s names classes)).
Proof.
  intros Hl Hn. apply bind_normal_inv in Hn as Hinv.
  destruct Hinv as ([] & w1 & H1 & Hrun). rewrite Hrun in *. clear Hrun.
  destruct (_buildScrollamaContainers_attaches w l Hl) as (l1 & Hl1 & _ & Hatt);
    [by rewrite H1|].
  rewrite H1 in Hl1. simpl in Hl1.
  destruct (_buildGraphs_complete w1 l1 Hl1 Hn)
    as (l' & es & Hw & _ & _ & Hgraph).
  exists l'. split; [by rewrite Hw|].
  intros i s Hi.
  destruct (Hatt i s Hi) as (names & classes & Hnames & Hcss & Hi1).
  destruct (Hgraph i _ Hi1) as (names' & f & g & Hn' & Hf & Hg & Hi' & _).
  simpl in Hn'. rewrite Hnames in Hn'. injection Hn' as <-.
  exists names, classes, f, g. by repeat split.
Qed.


(** X10: when resolving the narration rejects, [render] rejects with the
    same error after that one call; when resolving the data rejects,
    [render] rejects with the same error after the two fetches.  In both
    cases no scaffolding, no scroll observer and no graph is built. *)
Theorem render_builds_nothing_when_a_fetch_rejects `{Collaborators}
    (w : World) (e : JSError) :
  (fst (fetchNarration (sectionList w)) = Throw e →
   render w
   = (Throw e,
      mkWorld (snd (fetchNarration (sectionList w))) (active w)
        (trace w ++ [FetchNarration])%list))
  ∧ (fst (fetchNarration (sectionList w)) = Normal tt →
     fst (fetchDataAndProcessResults (snd (fetchNarration (sectionList w))))
     = Throw e →
     render w
     = (Throw e,
        mkWorld
          (snd (fetchDataAndProcessResults
                  (snd (fetchNarration (sectionList w)))))
          (active w)
          (trace w ++ [FetchNarration; FetchDataAndProcessResults])%list)).
Proof.
  unfold render, mbind, M_bind, emit, onSectionList. simpl. split.
  - destruct (fetchNarration (sectionList w)) as [r l1]. simpl. by intros ->.
  - destruct (fetchNarration (sectionList w)) as [r l1]. simpl. intros ->.
    simpl. destruct (fetchDataAndProcessResults l1) as [r l2]. simpl.
    intros ->. by rewrite <- app_assoc.
Qed.

(** X11: when the section list is undefined or empty after both fetches,
    [render] completes having made the two fetch calls and nothing else. *)
Theorem render_with_no_sections_only_fetches `{Collaborators} (w : World)
    (l1 l2 : option (list SectionConfig)) :
  fetchNarration (sectionList w) = (Normal tt, l1) →
  fetchDataAndProcessResults l1 = (Normal tt, l2) →
  l2 = None ∨ l2 = Some [] →
  render w
  = (Normal tt,
     mkWorld l2 (active w)
       (trace w ++ [FetchNarration; FetchDataAndProcessResults])%list).
Proof.
  intros H1 H2 Hempty.
  unfold render, mbind, M_bind, emit, onSectionList. simpl.
  rewrite H1. simpl. rewrite H2. simpl.
  unfold _buildSections, _buildScrollamaContainers, _buildGraphs, forEach.
  simpl. destruct Hempty as [-> | ->]; simpl; by rewrite <- app_assoc.
Qed.

(** X12: for an index at or past the end of the narration array, the
    enter handler and the progress handler throw a [TypeError] and change
    nothing: no element is flagged and no callback is called. *)
Theorem handlers_throw_past_the_last_entry `{Collaborators}
    (env : Closure) (rows : list NarrationEntry)
    (el : Element) (idx : nat) (dir : Direction) (p : float) (w : World) :
  env_narration env = Some (Rows rows) →
  (length rows ≤ idx)%nat →
  onStepEnter env el idx dir w = (Throw TypeError, w)
  ∧ onStepProgress env el idx dir p w = (Throw TypeError, w).
Proof.
  intros Hrows Hidx.
  assert (trigger_at (env_narration env) idx w = (Throw TypeError, w)) as Ht.
  { unfold trigger_at, mbind, M_bind, lift, narration_index.
    by rewrite Hrows, (lookup_ge_None_2 rows idx Hidx). }
  unfold onStepEnter, onStepProgress, mbind, M_bind. by rewrite Ht.
Qed.

Lemma dispatch_frame `{Collaborators} (env : Closure) (ev : ScrollEvent)
    (w : World) :
  sectionList (snd (dispatch env ev w)) = sectionList w
  ∧ ∃ es, trace (snd (dispatch env ev w)) = (trace w ++ es)%list
      ∧ (length es ≤ 1)%nat
      ∧ Forall (λ e, ∃ args,
                  e = Invoke (env_onScrollFunction env) args
                  ∨ e = Invoke (env_onActivateNarrationFunction env) args) es.
Proof.
  destruct ev as [el idx dir|el idx dir|el idx dir p]; simpl.
  - unfold onStepEnter, mbind, M_bind.
    pose proof (trigger_at_world (env_narration env) idx w) as Hw.
    destruct (trigger_at (env_narration env) idx w) as [[trig|e] w'];
      simpl in Hw; subst w'; simpl.
    + split; [done|]. eexists [_]. split; [done|]. split; [simpl; lia|].
      constructor; [|done]. eexists. by right.
    + split; [done|]. exists []. rewrite app_nil_r.
      repeat split; [simpl; lia|constructor].
  - split; [done|]. exists []. rewrite app_nil_r.
      repeat split; [simpl; lia|constructor].
  - unfold onStepProgress, mbind, M_bind.
    pose proof (trigger_at_world (env_narration env) idx w) as Hw.
    destruct (trigger_at (env_narration env) idx w) as [[trig|e] w'];
      simpl in Hw; subst w'; simpl.
    + split; [done|]. eexists [_]. split; [done|]. split; [simpl; lia|].
      constructor; [|done]. eexists. by left.
    + split; [done|]. exists []. rewrite app_nil_r.
      repeat split; [simpl; lia|constructor].
Qed.

(** X13: over any stream of scroll events, the handlers of a section never
    write to a section object, make at most one call per event, and call
    nothing but the two callbacks they closed over. *)
Theorem handlers_only_call_their_callbacks `{Collaborators}
    (env : Closure) (evs : list ScrollEvent) (w : World) :
  sectionList (run_events env evs w) = sectionList w
  ∧ ∃ es, trace (run_events env evs w) = (trace w ++ es)%list
      ∧ (length es ≤ length evs)%nat
      ∧ Forall (λ e, ∃ args,
                  e = Invoke (env_onScrollFunction env) args
                  ∨ e = Invoke (env_onActivateNarrationFunction env) args) es.
Proof.
  revert w. induction evs as [|ev evs IH]; intros w.
  - split; [done|]. exists []. rewrite app_nil_r.
      repeat split; [simpl; lia|constructor].
  - simpl. destruct (dispatch_frame env ev w) as (Hs & es1 & Ht & Hlen & Hf).
    destruct (IH (snd (dispatch env ev w))) as (Hs' & es2 & Ht' & Hlen' & Hf').
    split; [congruence|].
    exists (es1 ++ es2)%list. split; [by rewrite Ht', Ht, app_assoc|].
    split; [rewrite length_app; lia|]. by apply Forall_app.
Qed.

(** X14: an exit after an enter of the same element leaves the element
    without the flag and every other flag as before the enter, whether or
    not the enter handler threw; a second exit changes nothing. *)
Theorem exit_undoes_enter `{Collaborators}
    (env : Closure) (el : Element) (idx idx' : nat) (dir dir' : Direction)
    (w : World) :
  active (run_events env [StepEnter el idx dir; StepExit el idx' dir'] w)
  = active w ∖ {[el]}
  ∧ active (run_events env [StepExit el idx dir; StepExit el idx' dir'] w)
    = active (run_events env [StepExit el idx dir] w).
Proof.
  split.
  - simpl. destruct (onStepEnter_active env el idx dir w) as [-> | ->];
      [done|].
    apply set_eq. intros x.
    rewrite !elem_of_difference, elem_of_union, elem_of_singleton. tauto.
  - simpl. apply set_eq. intros x.
    rewrite !elem_of_difference, elem_of_singleton. tauto.
Qed.

(** ** The demo section *)

(** *** The legend *)

Lemma foldl_add_region (acc : list (option string)) (results : list Nation) :
  foldl add_region acc results
  = (acc ++ filter (λ r, r ∉ acc) (foldl add_region [] results))%list.
Proof.
  induction results as [|d results IH] using rev_ind.
  - simpl. by rewrite app_nil_r.
  - rewrite !foldl_snoc, IH. unfold add_region at 1 3.
    set (L := foldl add_region [] results).
    destruct (decide (region d ∈ L)) as [HL|HL].
    + rewrite decide_True; [done|].
      destruct (decide (region d ∈ acc)) as [Hacc|Hacc].
      * apply elem_of_app. by left.
      * apply elem_of_app. right. by apply list_elem_of_filter.
    + rewrite filter_app, filter_cons, filter_nil.
      destruct (decide (region d ∉ acc)) as [Hacc|Hacc].
      * rewrite decide_False; [by rewrite app_assoc|].
        rewrite elem_of_app, list_elem_of_filter. tauto.
      * rewrite decide_True; [by rewrite app_nil_r|].
        apply elem_of_app. left. by apply dec_stable.
Qed.

Lemma foldl_add_region_spec (results : list Nation)
    (acc : list (option string)) :
  NoDup acc →
  NoDup (foldl add_region acc results)
  ∧ ∀ r, r ∈ foldl add_region acc results ↔ r ∈ acc ∨ r ∈ region <$> results.
Proof.
  revert acc. induction results as [|d results IH]; intros acc Hacc.
  - simpl. split; [done|]. intros r. rewrite elem_of_nil. tauto.
  - change (foldl add_region acc (d :: results))
      with (foldl add_region (add_region acc d) results).
    destruct (IH (add_region acc d)) as [Hnd Hin].
    { unfold add_region. destruct (decide (region d ∈ acc)); [done|].
      apply NoDup_app. repeat split; [done| |apply NoDup_singleton].
      intros x Hx ->%list_elem_of_singleton. done. }
    split; [done|]. intros r. rewrite Hin, fmap_cons, elem_of_cons.
    unfold add_region. destruct (decide (region d ∈ acc)) as [Hd|Hd].
    + split; [tauto|]. intros [?|[->|?]]; tauto.
    + rewrite elem_of_app, list_elem_of_singleton. tauto.
Qed.

(** X15: [reshapeDataFunction] returns the records unchanged as [dataArray],
    and its [legendArray] holds every region of the data exactly once, in
    the order of first appearance. *)
Theorem legend_lists_each_region_once `{D3} (results : list Nation) :
  dataArray (processData results) = results
  ∧ NoDup (legendArray (processData results))
  ∧ (∀ r, r ∈ legendArray (processData results) ↔ r ∈ region <$> results)
  ∧ (∀ d, legendArray (processData (d :: results))
          = region d
            :: filter (λ r, r ≠ region d) (legendArray (processData results))).
Proof.
  split; [done|]. simpl.
  destruct (foldl_add_region_spec results [] (NoDup_nil_2)) as [Hnd Hin].
  split; [done|]. split.
  - intros r. rewrite Hin, elem_of_nil. tauto.
  - intros d.
    change (foldl add_region [] (d :: results))
      with (foldl add_region (add_region [] d) results).
    assert (add_region [] d = [region d]) as ->.
    { unfold add_region. by rewrite decide_False by apply not_elem_of_nil. }
    rewrite foldl_add_region. simpl. f_equal.
    apply list_filter_iff. intros r. by rewrite list_elem_of_singleton.
Qed.

(** *** Building the graph *)

(** X16: [buildGraphFunction] appends the snippet container, constructs the
    chart in the graph element with the reshaped data and legend and with
    0.9 times the element's offset height and width, and returns it; a
    later [onResizeFunction] call for the same element asks for exactly the
    size the chart was built with. *)
Theorem graph_is_built_at_the_size_resize_asks_for `{Page}
    (graphId : string) (data : Reshaped) (el : GraphElement)
    (g : GraphHandle) (params : DemoParams) (section : DemoSection) :
  node ("#" +:+ graphId) = Some el →
  newChart
    (mkChartOptions ("#" +:+ graphId) (dataArray data) (rDomain data)
       (xDomain data) (yDomain data) (yearDomain data) (legendArray data)
       (offsetHeight el * 0.9)%float (offsetWidth el * 0.9)%float)
  = Normal g →
  params_sectionConfig params = Some section →
  demo_graph section = Some g →
  params_graphElement params = Some el →
  ∃ opts,
    buildGraph graphId (Some data)
    = ([AppendCodeSnippet ("#" +:+ graphId); NewChart opts], Normal g)
    ∧ chart_container opts = "#" +:+ graphId
    ∧ chart_data opts = dataArray data
    ∧ chart_legendArray opts = legendArray data
    ∧ onResize params
      = ([GraphResize g (chart_width opts) (chart_height opts)], Normal tt).
Proof.
  intros Hnode Hnew Hsec Hg Hel. eexists. unfold buildGraph.
  rewrite Hnode, Hnew. split; [reflexivity|]. simpl.
  repeat split. unfold onResize. by rewrite Hsec, Hg, Hel.
Qed.

(** X17: without [sectionConfig.data], [buildGraphFunction] throws before it
    touches the page; when the graph element is not on the page it throws
    after the attempt to append the snippet container, and no chart is
    constructed. *)
Theorem graph_is_not_built_without_data_or_container `{Page}
    (graphId : string) (data : Reshaped) :
  buildGraph graphId None = ([], Throw TypeError)
  ∧ (node ("#" +:+ graphId) = None →
     buildGraph graphId (Some data)
     = ([AppendCodeSnippet ("#" +:+ graphId)], Throw TypeError)).
Proof.
  split; [done|]. intros Hnode. unfold buildGraph. by rewrite Hnode.
Qed.

(** *** The callbacks *)

(** X18: the demo's scroll callback makes at most one call, and only ever
    [graph.render]; when [yearProgress] is falsy (in particular when the
    state has no such key) it makes none and completes normally. *)
Theorem scroll_without_year_progress_is_silent `{Builtins}
    (params : DemoParams) :
  (length (fst (onScroll params)) ≤ 1)%nat
  ∧ Forall (λ e, ∃ g y d, e = GraphRender g y d) (fst (onScroll params))
  ∧ (∀ state section data,
       params_state params = Some state →
       params_sectionConfig params = Some section →
       demo_data section = Some data →
       truthy (property state "yearProgress") = false →
       onScroll params = ([], Normal tt))
  ∧ (∀ state, state !! "yearProgress" = None →
       truthy (property state "yearProgress") = false).
Proof.
  split; [|split; [|split]].
  - unfold onScroll.
    destruct (params_state params), (params_sectionConfig params) as [sec|];
      simpl; try lia.
    destruct (demo_data sec); simpl; try lia.
    destruct (truthy _); simpl; try lia.
    destruct (demo_graph sec); simpl; lia.
  - unfold onScroll.
    destruct (params_state params), (params_sectionConfig params) as [sec|];
      simpl; try constructor.
    destruct (demo_data sec); simpl; try constructor.
    destruct (truthy _); simpl; try constructor.
    destruct (demo_graph sec); simpl; repeat constructor. by eexists _, _, _.
  - intros state section data Hst Hsec Hdata Hfalsy. unfold onScroll.
    by rewrite Hst, Hsec, Hdata, Hfalsy.
  - intros state Hnone. unfold property. by rewrite Hnone.
Qed.

(** X19: the demo's activation callback first updates the page: the snippet
    container gets the snippet markup and the chart becomes transparent
    when the state names a snippet, and the container is emptied and the
    chart opaque otherwise.  It does so also when the section has no graph,
    in which case it then throws a [TypeError]. *)
Theorem activation_shows_snippet_or_graph `{Builtins}
    (params : DemoParams) (state : gmap string Value)
    (section : DemoSection) :
  params_state params = Some state →
  params_sectionConfig params = Some section →
  ∃ code opacity,
    take 3 (fst (onActivateNarration params))
    = [SelectHtml
         ("#" +:+ template (params_graphId params) +:+ " #codeSnippet") code;
       PrettyPrint;
       SelectAttrOpacity
         ("#" +:+ template (params_graphId params) +:+ " svg") opacity]
    ∧ (truthy (property state "snippet") = true →
       opacity = 0%float ∧ code ≠ "")
    ∧ (truthy (property state "snippet") = false →
       opacity = 1%float ∧ code = "")
    ∧ (demo_graph section = None →
       snd (onActivateNarration params) = Throw TypeError
       ∧ length (fst (onActivateNarration params)) = 3).
Proof.
  intros Hst Hsec. unfold onActivateNarration. rewrite Hst, Hsec.
  eexists _, _. split.
  - destruct (demo_graph section); reflexivity.
  - split; [|split].
    + intros ->. split; [done|]. discriminate.
    + intros ->. by split.
    + intros ->. by split.
Qed.

(** ** Examples of the further properties *)

(** The reshaped story data: overall domains and the legend. *)
Example story_reshaped_legend :
  legendArray story_reshaped = [Some "Asia"; Some "Europe"]
  ∧ rDomain story_reshaped = (VNumber 5%float, VNumber 30%float)
  ∧ yearDomain story_reshaped = (VNumber 1950%float, VNumber 2008%float)
  ∧ reshaped_yearProgressScale story_reshaped (VNumber 0.5%float) = 1979%float.
Proof. vm_compute. repeat split. Qed.

Lemma assign_config_variables_sets_defaults_witness :
  ∃ s', _assignConfigVariablesToSectionConfigs story_this mixed_world
        = (Normal tt,
           mkWorld (Some [assigned story_this story_section; s']) ∅ [])
    ∧ showSpacers s' = Some false
    ∧ useDefaultGraphCSS s' = Some true
    ∧ cssNames s' = Some story_names.
Proof.
  destruct (assign_config_variables_sets_defaults
              story_this mixed_world [story_section; bare_section] eq_refl)
    as (l' & Hrun & _ & Hall).
  destruct (Hall 1 bare_section eq_refl)
    as (s' & Hs' & Hspacers & Hcss & _ & Hnames & _).
  exists s'. repeat split; [|done..].
  rewrite Hrun. vm_compute in Hrun. injection Hrun as <-.
  vm_compute in Hs'. by injection Hs' as <-.
Defined.

Lemma constructor_shares_one_cssNames_witness :
  ∃ this l',
    constructor (H:=story_collaborators) story_config story_world
    = (Normal this, mkWorld (Some l') ∅ [])
    ∧ this_cssNames this = story_names
    ∧ Forall (λ s', cssNames s' = Some story_names
                    ∧ appContainerId s' = Some "app") l'.
Proof.
  destruct (constructor_shares_one_cssNames (H:=story_collaborators)
              story_config story_world [story_section] eq_refl eq_refl)
    as (this & l' & Hrun & _ & Hnames & _ & Hall).
  exists this, l'. split; [exact Hrun|]. split; [exact Hnames|].
  simpl in Hnames. by rewrite Hnames in Hall.
Defined.

(** X4: when [_buildScrollamaContainers] completes, every section carries a
    scrollama instance set up with the section's selectors, an offset of
    one half and progress reporting, whose handlers close over that
    section's narration, graph id and callbacks; the other fields of the
    section are as before. *)
Theorem scroll_observer_is_attached_to_each_section
    (w : World) (l : list SectionConfig) :
  sectionList w = Some l →
  fst (_buildScrollamaContainers w) = Normal tt →
  ∃ l', sectionList (snd (_buildScrollamaContainers w)) = Some l'
    ∧ length l' = length l
    ∧ ∀ i s, l !! i = Some s →
        ∃ names classes,
          cssNames s = Some names
          ∧ CSSNames.css names = Some classes
          ∧ l' !! i = Some (attached i s names classes).
Proof. apply _buildScrollamaContainers_attaches. Qed.

Lemma scroll_observer_is_attached_to_each_section_witness :
  ∃ l', sectionList (snd (_buildScrollamaContainers story_world)) = Some l'
    ∧ l' !! 0
      = Some (attached 0 story_section story_names
                {[ "narrationBlock" := "narration" ]}).
Proof.
  destruct (scroll_observer_is_attached_to_each_section story_world
              [story_section] eq_refl eq_refl) as (l' & Hl' & _ & Hall).
  exists l'. split; [exact Hl'|].
  destruct (Hall 0 story_section eq_refl)
    as (names & classes & Hnames & Hcss & Hi).
  injection Hnames as <-. injection Hcss as <-. exact Hi.
Defined.

Lemma attach_stops_at_first_section_without_css_witness :
  ∃ s1',
    _buildScrollamaContainers mixed_world
    = (Throw TypeError,
       mkWorld
         (Some [s1'; set_scroller (Some (mkScroller None None)) bare_section])
         ∅
         [ScrollamaSetup 0
            (setup_options story_section story_names
               {[ "narrationBlock" := "narration" ]})]).
Proof.
  destruct (attach_stops_at_first_section_without_css mixed_world
              [story_section] [] bare_section eq_refl)
    as (l1' & es & Hrun & Hlen & _ & _).
  - repeat constructor. by eexists.
  - reflexivity.
  - destruct l1' as [|s1' [|? ?]]; try discriminate Hlen.
    exists s1'. rewrite Hrun. vm_compute in Hrun.
    by injection Hrun as _ <-.
Defined.

(** X6: when [_buildGraphs] completes, every section has a names object and
    a builder, the builder was called once, with the graph id made from the
    section's identifier and with the section object, and the section's
    [graph] is what the builder returned; the calls were made in the order
    of the sections and nothing else of a section changed. *)
Theorem build_graphs_assigns_each_graph `{Collaborators}
    (w : World) (l : list SectionConfig) :
  sectionList w = Some l →
  fst (_buildGraphs w) = Normal tt →
  ∃ l' es,
    snd (_buildGraphs w)
    = mkWorld (Some l') (active w) (trace w ++ es)%list
    ∧ length l' = length l
    ∧ length es = length l
    ∧ ∀ i s, l !! i = Some s →
        ∃ names f g,
          cssNames s = Some names
          ∧ buildGraphFunction s = Some f
          ∧ callBuildGraph f (CSSNames.graphId names (sectionIdentifier s)) s
            = Normal g
          ∧ l' !! i = Some (set_graph g s)
          ∧ es !! i
            = Some (BuildGraph f
                      (CSSNames.graphId names (sectionIdentifier s)) i).
Proof. apply _buildGraphs_complete. Qed.

Lemma build_graphs_assigns_each_graph_witness :
  snd (_buildGraphs (H:=story_collaborators) story_world)
  = mkWorld (Some [set_graph (Some 7) story_section]) ∅
      [BuildGraph 7 "graph_healthAndWealth" 0].
Proof.
  destruct (build_graphs_assigns_each_graph (H:=story_collaborators)
              story_world [story_section] eq_refl eq_refl)
    as (l' & es & Hrun & _ & _ & _).
  rewrite Hrun. vm_compute in Hrun. by injection Hrun as <- <-.
Defined.

Lemma build_graphs_stops_at_section_without_builder_witness :
  ∃ s1',
    _buildGraphs (H:=story_collaborators) mixed_world
    = (Throw TypeError,
       mkWorld (Some [s1'; bare_section]) ∅
         [BuildGraph 7 "graph_healthAndWealth" 0])
    ∧ graph s1' = Some 7.
Proof.
  destruct (build_graphs_stops_at_section_without_builder
              (H:=story_collaborators) mixed_world
              [story_section] [] bare_section eq_refl)
    as (l1' & es & Hrun & Hlen & _ & _).
  - repeat constructor. by exists story_names, 7, (Some 7).
  - by left.
  - destruct l1' as [|s1' [|? ?]]; try discriminate Hlen.
    exists s1'. rewrite Hrun. vm_compute in Hrun.
    by injection Hrun as <- <-.
Defined.

Lemma build_graphs_passes_builder_exception_on_witness :
  _buildGraphs (H:=throwing_builder) mixed_world
  = (Throw (Rejection "no container"),
     mkWorld (Some [story_section; bare_section]) ∅
       [BuildGraph 7 "graph_healthAndWealth" 0]).
Proof.
  destruct (build_graphs_passes_builder_exception_on (H:=throwing_builder)
              mixed_world [] [bare_section] story_section story_names 7
              (Rejection "no container") eq_refl (Forall_nil_2 _)
              eq_refl eq_refl eq_refl)
    as (l1' & es & Hrun & Hlen & Htag).
  destruct l1' as [|? ?]; [|discriminate Hlen].
  destruct es as [|? ?]; [|discriminate Htag].
  exact Hrun.
Defined.

Lemma graph_builder_receives_attached_section_witness :
  ∃ l',
    sectionList
      (snd ((_buildScrollamaContainers;; _buildGraphs (H:=story_collaborators))
              story_world))
    = Some l'
    ∧ l' !! 0
      = Some (set_graph (Some 7)
                (attached 0 story_section story_names
                   {[ "narrationBlock" := "narration" ]})).
Proof.
  destruct (graph_builder_receives_attached_section (H:=story_collaborators)
              story_world [story_section] eq_refl eq_refl)
    as (l' & Hl' & Hall).
  exists l'. split; [exact Hl'|].
  destruct (Hall 0 story_section eq_refl)
    as (names & classes & f & g & Hnames & Hcss & Hf & Hg & Hi).
  injection Hnames as <-. injection Hcss as <-. injection Hf as <-.
  injection Hg as <-. exact Hi.
Defined.

Lemma render_builds_nothing_when_a_fetch_rejects_witness :
  render (H:=rejecting_collaborators) story_world
  = (Throw (Rejection "narration.csv"),
     mkWorld (Some [story_section]) ∅ [FetchNarration]).
Proof.
  exact (proj1 (render_builds_nothing_when_a_fetch_rejects
                  (H:=rejecting_collaborators) story_world
                  (Rejection "narration.csv")) eq_refl).
Defined.

Lemma render_with_no_sections_only_fetches_witness :
  render (H:=story_collaborators) empty_world
  = (Normal tt,
     mkWorld (Some []) ∅ [FetchNarration; FetchDataAndProcessResults]).
Proof.
  apply (render_with_no_sections_only_fetches (H:=story_collaborators)
           empty_world (Some []) (Some [])).
  - reflexivity.
  - reflexivity.
  - by right.
Defined.

Lemma handlers_throw_past_the_last_entry_witness :
  onStepEnter (H:=story_collaborators)
    (section_handlers 0 story_section story_names) 12 2 down story_world
  = (Throw TypeError, story_world)
  ∧ onStepProgress (H:=story_collaborators)
      (section_handlers 0 story_section story_names) 12 2 down 0.5%float
      story_world
    = (Throw TypeError, story_world).
Proof.
  apply (handlers_throw_past_the_last_entry (H:=story_collaborators)
           (section_handlers 0 story_section story_names) story_narration).
  - reflexivity.
  - simpl. lia.
Defined.

Lemma graph_is_built_at_the_size_resize_asks_for_witness :
  ∃ opts,
    buildGraph (H:=story_page) "graph_healthAndWealth" (Some story_reshaped)
    = ([AppendCodeSnippet "#graph_healthAndWealth"; NewChart opts], Normal 7)
    ∧ chart_width opts = 900%float
    ∧ chart_height opts = 450%float
    ∧ onResize resize_params
      = ([GraphResize 7 (chart_width opts) (chart_height opts)], Normal tt).
Proof.
  destruct (graph_is_built_at_the_size_resize_asks_for (H:=story_page)
              "graph_healthAndWealth" story_reshaped
              (mkGraphElement 1000%float 500%float) 7
              resize_params story_demo_section
              eq_refl eq_refl eq_refl eq_refl eq_refl)
    as (opts & Hrun & _ & _ & _ & Hresize).
  exists opts. split; [exact Hrun|].
  injection Hrun as <-. split; [reflexivity|]. split; [reflexivity|].
  exact Hresize.
Defined.

Lemma graph_is_not_built_without_data_or_container_witness :
  buildGraph (H:=story_page) "graph_elsewhere" (Some story_reshaped)
  = ([AppendCodeSnippet "#graph_elsewhere"], Throw TypeError).
Proof.
  exact (proj2 (graph_is_not_built_without_data_or_container (H:=story_page)
                  "graph_elsewhere" story_reshaped) eq_refl).
Defined.

Lemma scroll_without_year_progress_is_silent_witness :
  onScroll (H:=story_builtins) activate_params = ([], Normal tt).
Proof.
  destruct (scroll_without_year_progress_is_silent (H:=story_builtins)
              activate_params) as (_ & _ & Hsilent & Hmissing).
  exact (Hsilent {[ "year" := VString "1962"; "snippet" := VString "intro" ]}
           story_demo_section story_data eq_refl eq_refl eq_refl
           (Hmissing
              {[ "year" := VString "1962"; "snippet" := VString "intro" ]}
              eq_refl)).
Defined.

Lemma activation_shows_snippet_or_graph_witness :
  ∃ code,
    take 3 (fst (onActivateNarration (H:=story_builtins) activate_params))
    = [SelectHtml "#graph_healthAndWealth #codeSnippet" code;
       PrettyPrint;
       SelectAttrOpacity "#graph_healthAndWealth svg" 0%float]
    ∧ code ≠ "".
Proof.
  destruct (activation_shows_snippet_or_graph (H:=story_builtins)
              activate_params
              {[ "year" := VString "1962"; "snippet" := VString "intro" ]}
              story_demo_section eq_refl eq_refl)
    as (code & opacity & Hpage & Hshown & _ & _).
  destruct (Hshown eq_refl) as [-> Hcode].
  exists code. by split.
Defined.
